(** * generate-osv-config: the yarn dependency-chain extractor

    A shallow embedding of [src/helpers/yarn.ts] (class
    [YarnPackageManager]): [getDependencyChain], [parseYarnWhyOutput],
    [extractVersionLines], [extractDependencyChains] and
    [extractChainFromTree], together with the string primitives of the
    language they call.

    Strings are byte strings holding the UTF-8 encoding of the text.  The
    operations used by the program (substring search, replacement of a
    literal, splitting on a line feed, trimming) give the same results on
    the UTF-8 bytes as on the UTF-16 code units of the original, because
    every pattern involved is itself a complete UTF-8 sequence.

    Around the extractor, the development also embeds the other methods
    of the class ([getVersion], [update]) and of its sibling in
    [src/helpers/pnpm.ts], the choice of the package manager in
    [src/helpers/packageManagerDetector.ts], and the readers of the
    returned chain in [src/index.ts]: [extractPackageNamesFromChain] and
    [generateTomlConfig]. *)

From Stdlib Require Import String Ascii List Bool Arith Lia DecimalString.
From stdpp Require Import gmap strings.
Import ListNotations.
#[local] Arguments String.append : simpl nomatch.

(** ** String primitives of the host language *)

Module JS.

(** [s.startsWith(p)] *)
Fixpoint startsWith (s p : string) {struct p} : bool :=
  match p, s with
  | EmptyString, _ => true
  | String a p', String b s' => Ascii.eqb a b && startsWith s' p'
  | String _ _, EmptyString => false
  end.

(** [s.includes(p)]: [p] occurs in [s] at some position. *)
Fixpoint includes (s p : string) : bool :=
  startsWith s p ||
  match s with
  | EmptyString => false
  | String _ s' => includes s' p
  end.

(** [s.slice(n)] for [0 <= n]. *)
Fixpoint skip (n : nat) (s : string) : string :=
  match n, s with
  | O, _ => s
  | S n', String _ s' => skip n' s'
  | S _, EmptyString => EmptyString
  end.

(** [s.slice(0, n)] for [0 <= n]. *)
Fixpoint prefix (n : nat) (s : string) : string :=
  match n, s with
  | O, _ => EmptyString
  | S n', String c s' => String c (prefix n' s')
  | S _, EmptyString => EmptyString
  end.

(** [s.replace(pat, rep)] with a string pattern: only the first
    occurrence of [pat] is replaced. *)
Fixpoint replace (s pat rep : string) : string :=
  if startsWith s pat then rep +:+ skip (String.length pat) s
  else match s with
       | EmptyString => EmptyString
       | String c s' => String c (replace s' pat rep)
       end.

(** Truthiness of a string: the empty string is the only falsy one. *)
Definition truthy (s : string) : bool :=
  match s with
  | EmptyString => false
  | String _ _ => true
  end.

(** [o || d] for an optional string: a missing value and the empty
    string are both falsy. *)
Definition orElse (o : option string) (d : string) : string :=
  match o with
  | Some s => if truthy s then s else d
  | None => d
  end.

(** [s.split] on a line feed *)
Fixpoint splitLines (s : string) : list string :=
  match s with
  | EmptyString => [EmptyString]
  | String c s' =>
      if Ascii.eqb c "010"%char then EmptyString :: splitLines s'
      else match splitLines s' with
           | l :: ls => String c l :: ls
           | [] => [String c EmptyString]
           end
  end.

(** [l.join(sep)] *)
Fixpoint join (sep : string) (l : list string) : string :=
  match l with
  | [] => EmptyString
  | [x] => x
  | x :: rest => x +:+ sep +:+ join sep rest
  end.

Definition ofBytes (l : list nat) : string :=
  string_of_list_ascii (map ascii_of_nat l).

Definition reverse (s : string) : string :=
  string_of_list_ascii (rev (list_ascii_of_string s)).

(** The characters [trim] removes (WhiteSpace and LineTerminator of the
    language definition), each as its UTF-8 bytes: U+0009..U+000D,
    U+0020, U+00A0, U+1680, U+2000..U+200A, U+2028, U+2029, U+202F,
    U+205F, U+3000, U+FEFF. *)
Definition whiteSpace : list string :=
  map ofBytes
    [ [9]; [10]; [11]; [12]; [13]; [32]; [194; 160]; [225; 154; 128];
      [226; 128; 128]; [226; 128; 129]; [226; 128; 130]; [226; 128; 131];
      [226; 128; 132]; [226; 128; 133]; [226; 128; 134]; [226; 128; 135];
      [226; 128; 136]; [226; 128; 137]; [226; 128; 138]; [226; 128; 168];
      [226; 128; 169]; [226; 128; 175]; [226; 129; 159]; [227; 128; 128];
      [239; 187; 191] ].

Fixpoint stripOne (pats : list string) (s : string) : option string :=
  match pats with
  | [] => None
  | p :: pats' =>
      if startsWith s p then Some (skip (String.length p) s)
      else stripOne pats' s
  end.

Fixpoint stripAll (pats : list string) (fuel : nat) (s : string) : string :=
  match fuel with
  | O => s
  | S fuel' =>
      match stripOne pats s with
      | Some s' => stripAll pats fuel' s'
      | None => s
      end
  end.

Definition trimStart (s : string) : string :=
  stripAll whiteSpace (String.length s) s.

Definition trimEnd (s : string) : string :=
  reverse (stripAll (map reverse whiteSpace) (String.length s) (reverse s)).

(** [s.trim()] *)
Definition trim (s : string) : string := trimEnd (trimStart s).

End JS.

(** ** Data model

    The value [JSON.parse] returns for one transcript line, read at the
    types the program uses it at: [chains : string[]],
    [extractChainFromTree(...) : string | null] and the string methods
    called on messages, items and names.  A field the program reads with
    [||] or [?.] may be missing, hence the options.  Nothing in the
    program checks these types: a list or tree record whose payload is of
    another type is kept like any other record, and reading it throws. *)

(** An entry of [data.trees] or of a [children] array. [NotObject] is any
    value rejected by the guard [!tree || typeof tree !== 'object']:
    [null], [undefined] or a primitive. *)
#[warnings="-register-all"]
Inductive Node : Type :=
| NotObject
| Obj (name : option string) (children : option (list Node)).

(** One parsed line, by its [type] field. [RStep] and [RUnknown] carry
    nothing the program looks at.  [RUnreadable] is a record that is not
    a marker and on which the extractor throws a [TypeError]: a reasons
    list with an item that is not a string (it has no [replace] method),
    or whose items, or a tree record whose trees, is a truthy value that
    cannot be iterated, or an info record whose data is an array (it has
    no [match] method). *)
Inductive Record : Type :=
| RInfo (data : option string)
| RList (kind : option string) (items : option (list string))
| RTree (trees : option (list Node))
| RStep
| RUnknown
| RUnreadable.

(** What [spawnSync] does on [yarn why --json packageName]: it throws,
    or it returns an object with the exit code of the process ([null]
    when there is none) and the text captured on its standard output
    ([null] when there is none). *)
Inductive SpawnResult : Type :=
| SpawnThrows
| SpawnReturns (status : option nat) (stdout : option string).

(** ** The two capture patterns of the info-text strategy *)

Definition dquote : string := String "034" EmptyString.

(** The two patterns are sequences of items of two kinds: text matched as
    it is, and a capture group of one or more characters other than a
    given one. *)
Inductive Item : Type :=
| Literal (text : string)
| GroupOfNot (c : ascii).

(** The number of characters other than [c] at the head of [s]: the most
    a group can take. *)
Fixpoint runLength (c : ascii) (s : string) : nat :=
  match s with
  | EmptyString => O
  | String x s' => if Ascii.eqb x c then O else S (runLength c s')
  end.

(** A group is greedy: it first takes [k] characters, as many as it can,
    and gives them back one at a time, down to one, until what follows in
    the pattern ([next]) matches what is left. *)
Fixpoint tryLengths (next : string -> option (list string)) (s : string) (k : nat)
  : option (list string) :=
  match k with
  | O => None
  | S k' =>
      match next (JS.skip k s) with
      | Some groups => Some (JS.prefix k s :: groups)
      | None => tryLengths next s k'
      end
  end.

(** A match of a pattern at the head of [s]: the groups captured, in
    order. *)
Fixpoint matchHere (p : list Item) (s : string) : option (list string) :=
  match p with
  | [] => Some []
  | Literal text :: p' =>
      if JS.startsWith s text
      then matchHere p' (JS.skip (String.length text) s)
      else None
  | GroupOfNot c :: p' => tryLengths (matchHere p') s (runLength c s)
  end.

(** The leftmost position of [s] at which [here] succeeds. *)
Fixpoint firstMatch {A : Type} (here : string -> option A) (s : string) : option A :=
  match here s with
  | Some x => Some x
  | None =>
      match s with
      | EmptyString => None
      | String _ s' => firstMatch here s'
      end
  end.

(** [s.match(re)] for a pattern without flags; [None] is [null]. *)
Definition regexMatch (p : list Item) (s : string) : option (list string) :=
  firstMatch (matchHere p) s.

(** A double quote, a group of characters other than a double quote, a
    double quote, then [ depends on it]. *)
Definition dependsPattern : list Item :=
  [Literal dquote; GroupOfNot "034"; Literal (dquote +:+ " depends on it")].

(** The same after [exists because ]. *)
Definition existsPattern : list Item :=
  [Literal ("exists because " +:+ dquote); GroupOfNot "034";
   Literal (dquote +:+ " depends on it")].

(** [m[1]] *)
Definition group1 (m : option (list string)) : string :=
  match m with
  | Some (g :: _) => g
  | _ => EmptyString
  end.

(** [m && m[1]] *)
Definition captured (m : option (list string)) : bool :=
  match m with
  | Some _ => JS.truthy (group1 m)
  | None => false
  end.

(** The two regular-expression replacements applied to an item: a double
    quote at the start of the string is removed, then a double quote at
    the end of the string. *)
Definition stripLeadingQuote (s : string) : string :=
  match s with
  | String c s' => if Ascii.eqb c "034" then s' else s
  | EmptyString => EmptyString
  end.

Fixpoint stripTrailingQuote (s : string) : string :=
  match s with
  | EmptyString => EmptyString
  | String c EmptyString => if Ascii.eqb c "034" then EmptyString else s
  | String c s' => String c (stripTrailingQuote s')
  end.

(** ** The program *)

(** The separator written between node names, byte for byte as in the
    source: U+00E2 U+2020 U+2019 between two spaces
    (C3 A2, E2 80 A0, E2 80 99). *)
Definition separator : string := " â†’ ".

(** The arrow separator U+2192 between two spaces (E2 86 92). *)
Definition arrow : string := " → ".

Definition unableToDetermine : string := "Unable to determine dependency chain".
Definition unableToParse : string := "Unable to parse yarn output".

Fixpoint extractChainFromTree (tree : Node) (parentChain : string) : option string :=
  match tree with
  | NotObject => None
  | Obj treeName children =>
      let name := JS.orElse treeName EmptyString in
      let currentChain :=
        if JS.truthy parentChain then parentChain +:+ separator +:+ name else name in
      match children with
      | Some (child :: _) => extractChainFromTree child currentChain
      | _ => Some currentChain
      end
  end.

(** The test applied to a chain before it is pushed. *)
Definition keepChain (chain : string) : bool :=
  JS.truthy chain &&
  negb (JS.includes chain "workspace aggregator" ||
        JS.includes chain "workspace-aggregator").

Definition pushIfKept (chain : string) : list string :=
  if keepChain chain then [chain] else [].

Definition reasonChain (item : string) : string :=
  JS.replace (stripTrailingQuote (stripLeadingQuote item)) "_project_#" EmptyString.

Definition reasonsChains (items : list string) : list string :=
  flat_map (fun item => pushIfKept (reasonChain item)) items.

Definition treeChains (trees : list Node) : list string :=
  flat_map (fun tree =>
              match extractChainFromTree tree EmptyString with
              | Some chain => if JS.truthy chain then [chain] else []
              | None => []
              end) trees.

Definition infoChains (info : string) : list string :=
  let dependsMatch := regexMatch dependsPattern info in
  let existsMatch := regexMatch existsPattern info in
  if captured dependsMatch then
    pushIfKept (JS.replace (group1 dependsMatch) "_project_#" EmptyString)
  else if captured existsMatch then
    pushIfKept (JS.replace (group1 existsMatch) "_project_#" EmptyString)
  else [].

(** The chains one record pushes, in order; [None] when reading the
    record throws. *)
Definition chainsOfRecord (data : Record) : option (list string) :=
  match data with
  | RList kind items =>
      Some (if bool_decide (kind = Some "reasons")
            then reasonsChains (default [] items)
            else [])
  | RTree trees => Some (treeChains (default [] trees))
  | RInfo d => Some (infoChains (JS.orElse d EmptyString))
  | RStep | RUnknown => Some []
  | RUnreadable => None
  end.

(** One iteration of the loop over the records, with [body] for what a
    record pushes: an exception ends the loop. *)
Definition pushWith (body : Record -> option (list string))
  (chains : option (list string)) (data : Record) : option (list string) :=
  match chains, body data with
  | Some chains, Some new => Some (chains ++ new)
  | _, _ => None
  end.

(** The loop that removes duplicates, with its [Set]. *)
Definition dedupStep (st : gset string * list string) (chain : string)
  : gset string * list string :=
  let (seen, uniqueChains) := st in
  if bool_decide (chain ∈ seen) then st
  else ({[chain]} ∪ seen, uniqueChains ++ [chain]).

Definition removeDuplicates (chains : list string) : list string :=
  snd (fold_left dedupStep chains (∅, [])).

(** The first loop of [extractDependencyChains]: every chain pushed, in
    order. *)
Definition pushedChains (versionLines : list Record) : option (list string) :=
  fold_left (pushWith chainsOfRecord) versionLines (Some []).

(** [None] when an exception leaves the function. *)
Definition extractDependencyChains (versionLines : list Record)
  : option (list string) :=
  match pushedChains versionLines with
  | Some chains => Some (removeDuplicates chains)
  | None => None
  end.

(** The state of the loop of [extractVersionLines]. *)
Record SegState : Type := mkSeg {
  versionBlocks : list (list Record);
  currentBlock : list Record;
  inVersionBlock : bool
}.

Definition nonEmpty {A : Type} (l : list A) : bool := 0 <? length l.

(** One iteration on a line that parsed to [data]. *)
Definition segRecord (version : string) (st : SegState) (data : Record) : SegState :=
  let st1 :=
    match data with
    | RInfo d =>
        let info := JS.orElse d EmptyString in
        if JS.includes info "=> Found" && JS.includes info ("@" +:+ version) then
          mkSeg (if nonEmpty (currentBlock st)
                 then versionBlocks st ++ [currentBlock st]
                 else versionBlocks st)
                [] true
        else if JS.includes info "=> Found" then
          mkSeg (if inVersionBlock st && nonEmpty (currentBlock st)
                 then versionBlocks st ++ [currentBlock st]
                 else versionBlocks st)
                [] false
        else st
    | _ => st
    end in
  if inVersionBlock st1
  then mkSeg (versionBlocks st1) (currentBlock st1 ++ [data]) true
  else st1.

Definition segFinish (st : SegState) : list Record :=
  let blocks :=
    if inVersionBlock st && nonEmpty (currentBlock st)
    then versionBlocks st ++ [currentBlock st]
    else versionBlocks st in
  concat blocks.

Section Yarn.

(** [JSON.parse] on one line; [None] when it throws, or returns [null]
    (on which [data.type] throws): either way the [catch] skips the
    line. *)
Variable JSON_parse : string -> option Record.

(** The process runner, by package name. *)
Variable spawnSync : string -> SpawnResult.

Definition segLine (version : string) (st : SegState) (line : string) : SegState :=
  match JSON_parse line with
  | Some data => segRecord version st data
  | None => st
  end.

Definition extractVersionLines (lines : list string) (version : string) : list Record :=
  segFinish (fold_left (segLine version) lines (mkSeg [] [] false)).

(** [None] when an exception leaves the function. *)
Definition parseYarnWhyOutput (output version : string) : option string :=
  let lines := JS.splitLines (JS.trim output) in
  let versionLines := extractVersionLines lines version in
  match extractDependencyChains versionLines with
  | None => None
  | Some dependencyChains =>
      Some (if 0 <? length dependencyChains
            then JS.join " | " (firstn 5 dependencyChains)
            else unableToParse)
  end.

(** The records the extractor is run on, and the chains whose join is
    returned, for a transcript. *)
Definition retainedRecords (output version : string) : list Record :=
  extractVersionLines (JS.splitLines (JS.trim output)) version.

Definition returnedChains (output version : string) : option (list string) :=
  match extractDependencyChains (retainedRecords output version) with
  | Some chains => Some (firstn 5 chains)
  | None => None
  end.

Definition getDependencyChain (packageName version : string) : string :=
  match spawnSync packageName with
  | SpawnThrows => unableToDetermine
  | SpawnReturns _ None => unableToDetermine
  | SpawnReturns _ (Some stdout) =>
      if JS.truthy stdout
      then match parseYarnWhyOutput stdout version with
           | Some result => result
           | None => unableToDetermine
           end
      else unableToDetermine
  end.

End Yarn.

(** ** Reading a transcript line

    A reader for the JSON text format, and the view of a parsed value at
    the data model.  Together they give one instance of the line parser
    the program is parameterised by, used to run the program on
    transcripts as text. *)

Module JSON.

#[warnings="-register-all"]
Inductive value : Type :=
| Null
| Bool (b : bool)
| Number (literal : string)
| Str (s : string)
| Array (elements : list value)
| Object (members : list (string * value)).

Definition isWs (c : ascii) : bool :=
  Ascii.eqb c " " || Ascii.eqb c "009" || Ascii.eqb c "010" || Ascii.eqb c "013".

Fixpoint skipWs (s : string) : string :=
  match s with
  | String c s' => if isWs c then skipWs s' else s
  | EmptyString => EmptyString
  end.

Definition isDigit (c : ascii) : bool :=
  (48 <=? N_of_ascii c)%N && (N_of_ascii c <=? 57)%N.

Fixpoint spanDigits (s : string) : string * string :=
  match s with
  | String c s' =>
      if isDigit c then let (d, r) := spanDigits s' in (String c d, r)
      else (EmptyString, s)
  | EmptyString => (EmptyString, EmptyString)
  end.

Definition hexDigit (c : ascii) : option N :=
  let n := N_of_ascii c in
  if (48 <=? n)%N && (n <=? 57)%N then Some (n - 48)%N
  else if (65 <=? n)%N && (n <=? 70)%N then Some (n - 55)%N
  else if (97 <=? n)%N && (n <=? 102)%N then Some (n - 87)%N
  else None.

(** The character a two-character escape stands for. *)
Definition simpleEscape (e : ascii) : option ascii :=
  if Ascii.eqb e "034" then Some "034"%char
  else if Ascii.eqb e "092" then Some "092"%char
  else if Ascii.eqb e "/" then Some "/"%char
  else if Ascii.eqb e "b" then Some "008"%char
  else if Ascii.eqb e "f" then Some "012"%char
  else if Ascii.eqb e "n" then Some "010"%char
  else if Ascii.eqb e "r" then Some "013"%char
  else if Ascii.eqb e "t" then Some "009"%char
  else None.

(** The content of a string literal: bytes written as they are, and
    16-bit code units written as a backslash, [u] and four hexadecimal
    digits. *)
Inductive piece : Type :=
| Raw (c : ascii)
| Unit16 (n : N).

(** The pieces of a string literal whose opening quote has been read, and
    the text after its closing quote. *)
Fixpoint scanString (s : string) : option (list piece * string) :=
  match s with
  | EmptyString => None
  | String c s' =>
      if Ascii.eqb c "034" then Some ([], s')
      else if Ascii.eqb c "092" then
        match s' with
        | EmptyString => None
        | String e s'' =>
            if Ascii.eqb e "u" then
              match s'' with
              | String h1 (String h2 (String h3 (String h4 s5))) =>
                  match hexDigit h1, hexDigit h2, hexDigit h3, hexDigit h4,
                        scanString s5 with
                  | Some a, Some b, Some c', Some d, Some (ps, r) =>
                      Some (Unit16 (((a * 16 + b) * 16 + c') * 16 + d)%N :: ps, r)
                  | _, _, _, _, _ => None
                  end
              | _ => None
              end
            else
              match simpleEscape e, scanString s'' with
              | Some ch, Some (ps, r) => Some (Raw ch :: ps, r)
              | _, _ => None
              end
        end
      else if (N_of_ascii c <? 32)%N then None
      else
        match scanString s' with
        | Some (ps, r) => Some (Raw c :: ps, r)
        | None => None
        end
  end.

Definition byte (n : N) : ascii := ascii_of_N n.

(** UTF-8 bytes of a code point. *)
Definition utf8 (n : N) : string :=
  if (n <? 128)%N then String (byte n) EmptyString
  else if (n <? 2048)%N then
    String (byte (192 + N.shiftr n 6))
      (String (byte (128 + N.land n 63)) EmptyString)
  else if (n <? 65536)%N then
    String (byte (224 + N.shiftr n 12))
      (String (byte (128 + N.land (N.shiftr n 6) 63))
         (String (byte (128 + N.land n 63)) EmptyString))
  else
    String (byte (240 + N.shiftr n 18))
      (String (byte (128 + N.land (N.shiftr n 12) 63))
         (String (byte (128 + N.land (N.shiftr n 6) 63))
            (String (byte (128 + N.land n 63)) EmptyString))).

Definition isHigh (n : N) : bool := (55296 <=? n)%N && (n <=? 56319)%N.
Definition isLow (n : N) : bool := (56320 <=? n)%N && (n <=? 57343)%N.

(** The bytes of a literal's pieces; a surrogate pair is one code point,
    and a surrogate on its own is written with the three-byte scheme. *)
Fixpoint encode (ps : list piece) : string :=
  match ps with
  | [] => EmptyString
  | Raw c :: ps' => String c (encode ps')
  | Unit16 hi :: ps' =>
      match ps' with
      | Unit16 lo :: ps'' =>
          if isHigh hi && isLow lo
          then utf8 (65536 + (hi - 55296) * 1024 + (lo - 56320))%N +:+ encode ps''
          else utf8 hi +:+ encode ps'
      | _ => utf8 hi +:+ encode ps'
      end
  end.

Definition parseString (s : string) : option (string * string) :=
  match scanString s with
  | Some (ps, r) => Some (encode ps, r)
  | None => None
  end.

(** A number literal: sign, integer part without a leading zero,
    fraction, exponent.  Its text is kept. *)
Definition parseNumber (s : string) : option (string * string) :=
  let (sign, s1) :=
    match s with
    | String c s' => if Ascii.eqb c "-" then ("-", s') else (EmptyString, s)
    | EmptyString => (EmptyString, s)
    end in
  let int :=
    match s1 with
    | String c s2 =>
        if Ascii.eqb c "0" then Some ("0", s2)
        else if isDigit c then let (d, r) := spanDigits s2 in Some (String c d, r)
        else None
    | EmptyString => None
    end in
  match int with
  | None => None
  | Some (i, s3) =>
      let frac :=
        match s3 with
        | String c s4 =>
            if Ascii.eqb c "." then
              let (d, r) := spanDigits s4 in
              if JS.truthy d then Some ("." +:+ d, r) else None
            else Some (EmptyString, s3)
        | EmptyString => Some (EmptyString, s3)
        end in
      match frac with
      | None => None
      | Some (f, s5) =>
          let expo :=
            match s5 with
            | String c s6 =>
                if Ascii.eqb c "e" || Ascii.eqb c "E" then
                  let (sg, s7) :=
                    match s6 with
                    | String g s' =>
                        if Ascii.eqb g "+" || Ascii.eqb g "-"
                        then (String g EmptyString, s') else (EmptyString, s6)
                    | EmptyString => (EmptyString, s6)
                    end in
                  let (d, r) := spanDigits s7 in
                  if JS.truthy d then Some (String c sg +:+ d, r) else None
                else Some (EmptyString, s5)
            | EmptyString => Some (EmptyString, s5)
            end in
          match expo with
          | None => None
          | Some (e, r) => Some (sign +:+ i +:+ f +:+ e, r)
          end
      end
  end.

(** A value at the head of the text (after white space), and the rest.
    [parseElements] reads the elements of an array after its opening
    bracket, [parseMembers] the members of an object after its opening
    brace.  Every call passes less fuel on, and reads at least one
    character every other call. *)
Fixpoint parseValue (fuel : nat) (s : string) : option (value * string) :=
  match fuel with
  | O => None
  | S fuel' =>
      match skipWs s with
      | EmptyString => None
      | String c rest =>
          if Ascii.eqb c "{" then
            match skipWs rest with
            | String c' r =>
                if Ascii.eqb c' "}" then Some (Object [], r)
                else
                  match parseMembers fuel' rest with
                  | Some (ms, r') => Some (Object ms, r')
                  | None => None
                  end
            | EmptyString => None
            end
          else if Ascii.eqb c "[" then
            match skipWs rest with
            | String c' r =>
                if Ascii.eqb c' "]" then Some (Array [], r)
                else
                  match parseElements fuel' rest with
                  | Some (vs, r') => Some (Array vs, r')
                  | None => None
                  end
            | EmptyString => None
            end
          else if Ascii.eqb c "034" then
            match parseString rest with
            | Some (str, r) => Some (Str str, r)
            | None => None
            end
          else if JS.startsWith (String c rest) "true" then Some (Bool true, JS.skip 4 (String c rest))
          else if JS.startsWith (String c rest) "false" then Some (Bool false, JS.skip 5 (String c rest))
          else if JS.startsWith (String c rest) "null" then Some (Null, JS.skip 4 (String c rest))
          else
            match parseNumber (String c rest) with
            | Some (lit, r) => Some (Number lit, r)
            | None => None
            end
      end
  end
with parseElements (fuel : nat) (s : string) : option (list value * string) :=
  match fuel with
  | O => None
  | S fuel' =>
      match parseValue fuel' s with
      | None => None
      | Some (v, r) =>
          match skipWs r with
          | String c r' =>
              if Ascii.eqb c "," then
                match parseElements fuel' r' with
                | Some (vs, r'') => Some (v :: vs, r'')
                | None => None
                end
              else if Ascii.eqb c "]" then Some ([v], r')
              else None
          | EmptyString => None
          end
      end
  end
with parseMembers (fuel : nat) (s : string) : option (list (string * value) * string) :=
  match fuel with
  | O => None
  | S fuel' =>
      match skipWs s with
      | String q s1 =>
          if Ascii.eqb q "034" then
            match parseString s1 with
            | None => None
            | Some (key, s2) =>
                match skipWs s2 with
                | String colon s3 =>
                    if Ascii.eqb colon ":" then
                      match parseValue fuel' s3 with
                      | None => None
                      | Some (v, r) =>
                          match skipWs r with
                          | String c r' =>
                              if Ascii.eqb c "," then
                                match parseMembers fuel' r' with
                                | Some (ms, r'') => Some ((key, v) :: ms, r'')
                                | None => None
                                end
                              else if Ascii.eqb c "}" then Some ([(key, v)], r')
                              else None
                          | EmptyString => None
                          end
                      end
                    else None
                | EmptyString => None
                end
            end
          else None
      | EmptyString => None
      end
  end.

(** [JSON.parse(text)]; [None] when it throws. *)
Definition parse (text : string) : option value :=
  match parseValue (2 * String.length text + 2) text with
  | Some (v, r) =>
      match skipWs r with
      | EmptyString => Some v
      | String _ _ => None
      end
  | None => None
  end.

(** [o.key] on the members of a parsed object: of two members with the
    same key the later one counts. *)
Fixpoint get (key : string) (members : list (string * value)) : option value :=
  match members with
  | [] => None
  | (k, v) :: rest =>
      match get key rest with
      | Some v' => Some v'
      | None => if String.eqb k key then Some v else None
      end
  end.

End JSON.

(** *** The view of a parsed value at the data model

    [None] marks a line the loop of [extractVersionLines] skips ([null],
    or an info record whose data is [true] or an object, on which
    [includes] is not a function), and also a value outside the data
    model (a name that is neither missing nor a string, a [children]
    field that is neither missing nor an array, a number or a string
    where a message or an array is expected): the view has nothing to say
    about such a line. *)

(** A field read as [field || d] with string methods applied next. *)
Definition viewString (v : option JSON.value) : option (option string) :=
  match v with
  | None | Some JSON.Null | Some (JSON.Bool false) => Some None
  | Some (JSON.Str s) => Some (Some s)
  | Some _ => None
  end.

Fixpoint viewItems (vs : list JSON.value) : option (list string) :=
  match vs with
  | [] => Some []
  | JSON.Str s :: vs' =>
      match viewItems vs' with
      | Some l => Some (s :: l)
      | None => None
      end
  | _ :: _ => None
  end.

(** A tree entry.  An array is an object without [name] and [children]. *)
Fixpoint nodeOf (v : JSON.value) : option Node :=
  match v with
  | JSON.Null | JSON.Bool _ | JSON.Number _ | JSON.Str _ => Some NotObject
  | JSON.Array _ => Some (Obj None None)
  | JSON.Object members =>
      let fix nodesOf (vs : list JSON.value) : option (list Node) :=
        match vs with
        | [] => Some []
        | x :: vs' =>
            match nodeOf x, nodesOf vs' with
            | Some n, Some ns => Some (n :: ns)
            | _, _ => None
            end
        end in
      (* the last member called [children] counts *)
      let fix childrenOf (ms : list (string * JSON.value))
        : option (option (list Node)) :=
        match ms with
        | [] => Some None
        | (k, x) :: ms' =>
            if bool_decide (JSON.get "children" ms' = None) && String.eqb k "children"
            then match x with
                 | JSON.Null | JSON.Bool false => Some None
                 | JSON.Array vs =>
                     match nodesOf vs with
                     | Some ns => Some (Some ns)
                     | None => None
                     end
                 | _ => None
                 end
            else childrenOf ms'
        end in
      match viewString (JSON.get "name" members), childrenOf members with
      | Some name, Some children => Some (Obj name children)
      | _, _ => None
      end
  end.

Fixpoint nodesOf (vs : list JSON.value) : option (list Node) :=
  match vs with
  | [] => Some []
  | x :: vs' =>
      match nodeOf x, nodesOf vs' with
      | Some n, Some ns => Some (n :: ns)
      | _, _ => None
      end
  end.

Definition isStr (v : option JSON.value) (s : string) : bool :=
  match v with
  | Some (JSON.Str s') => String.eqb s' s
  | _ => false
  end.

(** A parsed line.  [null] has no [type] to read: the access throws and
    the line is skipped. *)
Definition recordOf (v : JSON.value) : option Record :=
  match v with
  | JSON.Null => None
  | JSON.Object members =>
      let type := JSON.get "type" members in
      let data := JSON.get "data" members in
      if isStr type "info" then
        match data with
        | Some (JSON.Array vs) =>
            (* [includes] on an array looks for an element *)
            if existsb (fun v => isStr (Some v) "=> Found") vs
            then None else Some RUnreadable
        | _ =>
            match viewString data with
            | Some d => Some (RInfo d)
            | None => None
            end
        end
      else if isStr type "list" then
        match data with
        | Some (JSON.Object d) =>
            let kind :=
              match JSON.get "type" d with
              | Some (JSON.Str k) => Some k
              | _ => None
              end in
            match JSON.get "items" d with
            | None | Some JSON.Null | Some (JSON.Bool false) => Some (RList kind None)
            | Some (JSON.Array vs) =>
                match viewItems vs with
                | Some items => Some (RList kind (Some items))
                | None =>
                    (* an item that is not a string; it is read only in a
                       reasons list *)
                    if bool_decide (kind = Some "reasons")
                    then Some RUnreadable else Some (RList kind None)
                end
            | Some (JSON.Bool true) | Some (JSON.Object _) =>
                if bool_decide (kind = Some "reasons")
                then Some RUnreadable else Some (RList kind None)
            | Some _ => None
            end
        | _ => Some (RList None None)
        end
      else if isStr type "tree" then
        match data with
        | Some (JSON.Object d) =>
            match JSON.get "trees" d with
            | None | Some JSON.Null | Some (JSON.Bool false) => Some (RTree None)
            | Some (JSON.Array vs) =>
                match nodesOf vs with
                | Some trees => Some (RTree (Some trees))
                | None => None
                end
            | Some (JSON.Bool true) | Some (JSON.Object _) => Some RUnreadable
            | Some _ => None
            end
        | _ => Some (RTree None)
        end
      else if isStr type "step" then Some RStep
      else Some RUnknown
  | _ => Some RUnknown
  end.

(** The line parser of the program, on text. *)
Definition parseLine (line : string) : option Record :=
  match JSON.parse line with
  | Some v => recordOf v
  | None => None
  end.

(** Transcripts are written below with an apostrophe wherever the text
    has a double quote; [dq] puts the double quotes back, and
    [transcript] joins the lines with line feeds. *)
Fixpoint dq (s : string) : string :=
  match s with
  | EmptyString => EmptyString
  | String c s' => String (if Ascii.eqb c "'" then "034"%char else c) (dq s')
  end.

Definition transcript (lines : list string) : string :=
  JS.join (String "010" EmptyString) (map dq lines).

(** ** Notions of the specification *)

(** A marker: an info record whose message contains the marker text. *)
Definition isFound (r : Record) : bool :=
  match r with
  | RInfo d => JS.includes (JS.orElse d EmptyString) "=> Found"
  | _ => false
  end.

(** A marker announcing the target version. *)
Definition isMatching (version : string) (r : Record) : bool :=
  match r with
  | RInfo d =>
      JS.includes (JS.orElse d EmptyString) "=> Found" &&
      JS.includes (JS.orElse d EmptyString) ("@" +:+ version)
  | _ => false
  end.

(** A record stream cut at its markers: the records before the first
    marker, then one block per marker, made of the marker and of the
    records up to the next marker. *)
Fixpoint blocksOf (rs : list Record) : list Record * list (Record * list Record) :=
  match rs with
  | [] => ([], [])
  | r :: rs' =>
      let (pre, bs) := blocksOf rs' in
      if isFound r then ([], (r, pre) :: bs) else (r :: pre, bs)
  end.

Definition blockRecords (b : Record * list Record) : list Record :=
  fst b :: snd b.

(** The blocks opened by a marker of the target version. *)
Definition matchingBlocks (version : string) (rs : list Record)
  : list (Record * list Record) :=
  List.filter (fun b => isMatching version (fst b)) (snd (blocksOf rs)).

(** The info-text strategy with the first pattern alone, and the
    extractor built on it. *)
Definition infoChainsOnePattern (info : string) : list string :=
  let dependsMatch := regexMatch dependsPattern info in
  if captured dependsMatch then
    pushIfKept (JS.replace (group1 dependsMatch) "_project_#" EmptyString)
  else [].

Definition chainsOfRecordOnePattern (data : Record) : option (list string) :=
  match data with
  | RInfo d => Some (infoChainsOnePattern (JS.orElse d EmptyString))
  | _ => chainsOfRecord data
  end.

Definition extractDependencyChainsOnePattern (versionLines : list Record)
  : option (list string) :=
  match fold_left (pushWith chainsOfRecordOnePattern) versionLines (Some []) with
  | Some chains => Some (removeDuplicates chains)
  | None => None
  end.


(** The first-child walk: the names of the nodes visited from a root,
    following the first child until a node has none.  [None] when the
    walk arrives at something that is not an object. *)
Fixpoint walkNames (tree : Node) : option (list string) :=
  match tree with
  | NotObject => None
  | Obj name children =>
      match children with
      | Some (child :: _) =>
          match walkNames child with
          | Some names => Some (JS.orElse name EmptyString :: names)
          | None => None
          end
      | _ => Some [JS.orElse name EmptyString]
      end
  end.

(** The first-child walk from [tree] arrives at a node whose [children]
    is a non-empty array with a first element that is not an object. *)
Inductive ReachesNonObject : Node -> Prop :=
| reaches_here name rest :
    ReachesNonObject (Obj name (Some (NotObject :: rest)))
| reaches_below name child rest :
    ReachesNonObject child ->
    ReachesNonObject (Obj name (Some (child :: rest))).

(** The transcripts of the scenarios. *)
Definition reasonsTranscript : string :=
  transcript
    [ "{'type':'info','data':'\r=> Found \'package-a@1.0.0\''}";
      "{'type':'list','data':{'type':'reasons','items':['_project_#package-a','package-b#package-a']}}";
      "{'type':'info','data':'Done'}" ].

Definition treeTranscript : string :=
  transcript
    [ "{'type':'info','data':'=> Found package-a@1.0.0'}";
      "{'type':'tree','data':{'trees':[{'name':'root','children':[{'name':'package-b','children':[{'name':'package-a@1.0.0'}]}]}]}}" ].

Definition capTranscript : string :=
  transcript
    [ "{'type':'info','data':'=> Found package-a@1.0.0'}";
      "{'type':'list','data':{'type':'reasons','items':['chain1','chain2','chain3','chain4','chain5','chain6','chain7']}}" ].




Definition unreadableTranscript : string :=
  transcript
    [ "{'type':'info','data':'=> Found package-a@1.0.0'}";
      "{'type':'list','data':{'type':'reasons','items':['package-b#package-a',42]}}" ].

Definition brokenTree : Node :=
  Obj (Some "root") (Some [Obj (Some "package-b") (Some [NotObject])]).

(** The transcripts of the repository's tests; the first is the captured
    output of [yarn why --json cross-spawn]. *)
Definition realYarnWhyCrossSpawnOutput : string :=
  String "010" EmptyString +:+
  transcript
    [ "{'type':'step','data':{'message':'Why do we have the module \'cross-spawn\'?','current':1,'total':4}}";
      "{'type':'step','data':{'message':'Initialising dependency graph','current':2,'total':4}}";
      "{'type':'step','data':{'message':'Finding dependency','current':3,'total':4}}";
      "{'type':'step','data':{'message':'Calculating file sizes','current':4,'total':4}}";
      "{'type':'info','data':'\r=> Found \'cross-spawn@7.0.6\''}";
      "{'type':'info','data':'Has been hoisted to \'cross-spawn\''}";
      "{'type':'info','data':'Reasons this module exists'}";
      "{'type':'list','data':{'type':'reasons','items':['\'workspace-aggregator-0b89a0ba-b5d2-4e9b-b3c1-943ea9360c55\' depends on it','Hoisted from \'_project_#execa#cross-spawn\'','Hoisted from \'_project_#frontend#patch-package#cross-spawn\'','Hoisted from \'_project_#backend#argon2#cross-env#cross-spawn\'','Hoisted from \'_project_#backend#@nestjs-modules#mailer#glob#foreground-child#cross-spawn\'']}}";
      "{'type':'info','data':'Disk size without dependencies: \'92KB\''}";
      "{'type':'info','data':'Disk size with unique dependencies: \'156KB\''}";
      "{'type':'info','data':'Disk size with transitive dependencies: \'216KB\''}";
      "{'type':'info','data':'Number of shared dependencies: 5'}";
      "{'type':'info','data':'\r=> Found \'@prisma/generator-helper#cross-spawn@7.0.3\''}";
      "{'type':'info','data':'This module exists because \'_project_#backend#prisma-dbml-generator#@prisma#generator-helper\' depends on it.'}";
      "{'type':'info','data':'Disk size without dependencies: \'68KB\''}";
      "{'type':'info','data':'Disk size with unique dependencies: \'132KB\''}";
      "{'type':'info','data':'Disk size with transitive dependencies: \'192KB\''}";
      "{'type':'info','data':'Number of shared dependencies: 5'}";
      "{'type':'info','data':'\r=> Found \'run-applescript#cross-spawn@6.0.6\''}";
      "{'type':'info','data':'Reasons this module exists'}";
      "{'type':'list','data':{'type':'reasons','items':['\'_project_#backend#@nestjs-modules#mailer#preview-email#display-notification#run-applescript#execa\' depends on it','Hoisted from \'_project_#backend#@nestjs-modules#mailer#preview-email#display-notification#run-applescript#execa#cross-spawn\'']}}";
      "{'type':'info','data':'Disk size without dependencies: \'68KB\''}";
      "{'type':'info','data':'Disk size with unique dependencies: \'440KB\''}";
      "{'type':'info','data':'Disk size with transitive dependencies: \'500KB\''}";
      "{'type':'info','data':'Number of shared dependencies: 7'}" ]
  +:+ String "010" EmptyString.

Definition versionBlocksTranscript : string :=
  transcript
    [ "{'type':'info','data':'=> Found package-a@1.0.0'}";
      "{'type':'list','data':{'type':'reasons','items':['version-1.0.0']}}";
      "{'type':'info','data':'=> Found package-a@2.0.0'}";
      "{'type':'list','data':{'type':'reasons','items':['version-2.0.0']}}";
      "{'type':'info','data':'=> Found package-a@1.0.0'}";
      "{'type':'list','data':{'type':'reasons','items':['another-1.0.0']}}" ].

Definition invalidLineTranscript : string :=
  transcript
    [ "{'type':'info','data':'=> Found package-a@1.0.0'}";
      "{'type':'list','data':{'type':'reasons','items':['valid-chain']}}";
      "invalid json line";
      "{'type':'info','data':'Done'}" ].

Definition aggregatorTranscript : string :=
  transcript
    [ "{'type':'info','data':'=> Found package-a@1.0.0'}";
      "{'type':'list','data':{'type':'reasons','items':['workspace aggregator of package-a','project#package-a']}}" ].

Definition duplicatesTranscript : string :=
  transcript
    [ "{'type':'info','data':'=> Found package-a@1.0.0'}";
      "{'type':'list','data':{'type':'reasons','items':['package-b#package-a','package-b#package-a','package-c#package-a']}}" ].

Definition nullTreeTranscript : string :=
  transcript
    [ "{'type':'info','data':'=> Found package-a@1.0.0'}";
      "{'type':'tree','data':{'trees':[null,{'name':'valid-package'}]}}" ].

Definition mixedTranscript : string :=
  transcript
    [ "{'type':'info','data':'=> Found package-a@1.0.0'}";
      "{'type':'list','data':{'type':'reasons','items':['reason-chain']}}";
      "{'type':'tree','data':{'trees':[{'name':'tree-chain'}]}}" ].

Definition unknownTranscript : string :=
  transcript [ "{'type':'unknown','data':'something'}" ].

Definition noMarkerTranscript : string :=
  transcript [ "{'type':'list','data':{'type':'reasons','items':[]}}" ].






(** ** The callers of the extractor in [index.ts] *)

Module Index.

(** [s.split(sep)] for a separator that is not empty.  [drop] counts the
    characters of an occurrence of the separator still to pass over. *)
Fixpoint split (sep s : string) (drop : nat) : list string :=
  match s with
  | EmptyString => [EmptyString]
  | String c s' =>
      match drop with
      | S d => split sep s' d
      | O =>
          if JS.startsWith s sep
          then EmptyString :: split sep s' (String.length sep - 1)
          else match split sep s' 0 with
               | l :: ls => String c l :: ls
               | [] => [String c EmptyString]
               end
      end
  end.

(** The separator [index.ts] splits a tree chain on, byte for byte as in
    the source: U+201A U+00DC U+00ED between two spaces
    (E2 80 9A, C3 9C, C3 AD). *)
Definition arrowOfIndex : string := " ‚Üí ".

(** [depChain.includes(' | ') ? depChain.split(' | ') : depChain.split(...)] *)
Definition parts (depChain : string) : list string :=
  if JS.includes depChain " | " then split " | " depChain 0
  else split arrowOfIndex depChain 0.

(** A character of the class [\s] starts at the head of [s]. *)
Definition spaceAhead (s : string) : bool :=
  existsb (JS.startsWith s) JS.whiteSpace.

(** The longest run of characters other than an at sign and white space
    at the head of [s]: what the greedy group of one or more such
    characters takes, nothing following it in the pattern.  The run is
    read a byte at a time: a white space character starts only where a
    character starts, no byte inside a character being the first byte
    of one. *)
Fixpoint nameRun (s : string) : string :=
  match s with
  | EmptyString => EmptyString
  | String c s' =>
      if Ascii.eqb c "@" || spaceAhead s then EmptyString
      else String c (nameRun s')
  end.

(** [cleaned.match(...)] with the pattern anchored at the start: an
    optional at sign, then the run; [match[1]] when it matches. *)
Definition nameMatch (cleaned : string) : option string :=
  match cleaned with
  | String c rest =>
      if Ascii.eqb c "@" then
        if JS.truthy (nameRun rest) then Some (String c (nameRun rest)) else None
      else
        if JS.truthy (nameRun cleaned) then Some (nameRun cleaned) else None
  | EmptyString => None
  end.

Definition extractPackageNamesFromChain (depChain : string) : list string :=
  omap (fun part => nameMatch (JS.trim part)) (parts depChain).

Section DevDependency.

(** [s.toLowerCase()] *)
Variable toLowerCase : string -> string.

(** The flag [isDevDependency] computed at the head of [suggestReason]:
    set when a name read from the chain is in the set of development
    dependencies, and set when the chain in lower case mentions them. *)
Definition isDevDependency (depChain : string) (devDependencies : gset string)
  : bool :=
  existsb (fun pkg => bool_decide (pkg ∈ devDependencies))
    (extractPackageNamesFromChain depChain)
  || (JS.includes (toLowerCase depChain) "devdependencies"
      || JS.includes (toLowerCase depChain) "dev-dep").

End DevDependency.

End Index.

(** ** Names met by the walk *)

(** The names left when the empty names at the head are passed over. *)
Fixpoint dropLeadingEmpty (names : list string) : list string :=
  match names with
  | [] => []
  | n :: ns => if JS.truthy n then names else dropLeadingEmpty ns
  end.

(** Each name behind a separator. *)
Fixpoint walkTail (names : list string) : string :=
  match names with
  | [] => EmptyString
  | n :: ns => separator +:+ n +:+ walkTail ns
  end.

(** ** The other methods of the package managers *)

(** [s.endsWith(w)] *)
Definition endsWith (s w : string) : bool :=
  JS.startsWith (JS.reverse s) (JS.reverse w).

(** No white space character at either end. *)
Definition Trimmed (s : string) : Prop :=
  forall w, In w JS.whiteSpace ->
            JS.startsWith s w = false /\ endsWith s w = false.

(** [getVersion()], the same in [yarn.ts] and [pnpm.ts] but for the name
    of the program run: [run] is what [spawnSync] does on
    [--version].  Without an exit code of 0 the result is [null]; so it
    is when the captured text is missing, [trim] being called on it
    inside the [try]. *)
Definition getVersion (run : SpawnResult) : option string :=
  match run with
  | SpawnThrows => None
  | SpawnReturns status stdout =>
      if bool_decide (status = Some 0) then
        match stdout with
        | Some text => Some (JS.trim text)
        | None => None
        end
      else None
  end.

(** [update()]: [run] is what [spawnSync] does on the upgrade command. *)
Definition update (run : SpawnResult) : bool :=
  match run with
  | SpawnThrows => false
  | SpawnReturns status _ => bool_decide (status = Some 0)
  end.

Module Pnpm.

Definition name : string := "pnpm".
Definition lockfile : string := "pnpm-lock.yaml".

(** [getDependencyChain] of [pnpm.ts]: the process runner is given the
    package and the version joined by an at sign, and the captured text
    is returned trimmed, as it is. *)
Definition getDependencyChain (spawnSync : string -> SpawnResult)
  (packageName version : string) : string :=
  match spawnSync (packageName +:+ "@" +:+ version) with
  | SpawnThrows => unableToDetermine
  | SpawnReturns _ None => unableToDetermine
  | SpawnReturns _ (Some stdout) =>
      if JS.truthy stdout then JS.trim stdout else unableToDetermine
  end.

End Pnpm.

(** ** Chains of package names *)

(** A printable ASCII character other than the space. *)
Definition graphic (c : ascii) : bool :=
  (33 <=? nat_of_ascii c) && (nat_of_ascii c <=? 126).

Fixpoint visible (s : string) : bool :=
  match s with
  | EmptyString => true
  | String c s' => graphic c && visible s'
  end.

(** A string of one character. *)
Definition single (c : ascii) : string := String c EmptyString.

(** One entry of a chain: a package name, with an at sign before it when
    it has a scope, and maybe a version behind an at sign. *)
Record Entry : Type := mkEntry {
  scoped : bool;
  bare : string;
  versionOf : option string
}.

Definition WellFormed (e : Entry) : Prop :=
  bare e <> EmptyString /\
  visible (bare e) = true /\
  JS.includes (bare e) (single "@") = false /\
  match versionOf e with
  | Some v => visible v = true
  | None => True
  end.

Definition packageOf (e : Entry) : string :=
  (if scoped e then "@" else EmptyString) +:+ bare e.

Definition render (e : Entry) : string :=
  packageOf e +:+
  match versionOf e with
  | Some v => "@" +:+ v
  | None => EmptyString
  end.

(** The words after the closing quote in the first pattern. *)
Definition dependsOnIt : string := dquote +:+ " depends on it".

Module Toml.

(** A line feed, and a text followed by one. *)
Definition nl : string := String "010" EmptyString.
Definition line (s : string) : string := s +:+ nl.

(** [String(n)] for a length. *)
Definition decimal (n : nat) : string := NilEmpty.string_of_uint (Nat.to_uint n).

Record Vulnerability : Type := mkVulnerability {
  name : string;
  version : string;
  vulnerability_ids : list string;
  severities : list string;
  dependency_chain : string;
  reason : string;
  show_alternatives : bool
}.

Definition depComment (vuln : Vulnerability) : string :=
  JS.join (nl +:+ "#   ") (Index.parts (dependency_chain vuln)).

Definition alternativeReasons (vuln : Vulnerability) : string :=
  if show_alternatives vuln then
    line "#" +:+
    line "# Alternative reasons to consider:" +:+
    line "#   1. üö® No fix available" +:+
    line "#   2. ‚ö†Ô∏è Dev dependency only - not in production" +:+
    line "#   3. ‚ö†Ô∏è Not accessible in production"
  else EmptyString.

(** What one turn of the loop appends to the configuration. *)
Definition packageOverride (vuln : Vulnerability) : string :=
  line "[[PackageOverrides]]" +:+
  line "# Used by:" +:+
  line ("#   " +:+ depComment vuln) +:+
  line ("# Vulnerability IDs: " +:+ JS.join ", " (vulnerability_ids vuln)) +:+
  line ("# Severity: " +:+
        (if 0 <? length (severities vuln)
         then JS.join ", " (severities vuln) else "UNKNOWN")) +:+
  alternativeReasons vuln +:+
  line ("ecosystem = " +:+ dquote +:+ "npm" +:+ dquote) +:+
  line ("name = " +:+ dquote +:+ name vuln +:+ dquote) +:+
  line ("version = " +:+ dquote +:+ version vuln +:+ dquote) +:+
  line "ignore = true" +:+
  line ("reason = " +:+ dquote +:+ reason vuln +:+ dquote) +:+
  nl.

Section Generate.

(** The text [new Date().toISOString()] gives when the function is
    called (ASCII), and the copy of the list sorted by name, then
    version, with [localeCompare]. *)
Variable now : string.
Variable sortedVulns : list Vulnerability -> list Vulnerability.

Definition timestamp : string := JS.prefix 19 (JS.replace now "T" " ").

Definition header (vulnerabilities : list Vulnerability) (managerName : string)
  : string :=
  line "# Generated by generate-osv-config" +:+
  line ("# Date: " +:+ timestamp) +:+
  line ("# Package Manager: " +:+ managerName) +:+
  line ("# Total vulnerabilities ignored: " +:+ decimal (length vulnerabilities)) +:+
  nl.

Definition generateTomlConfig (vulnerabilities : list Vulnerability)
  (managerName : string) : string * list Vulnerability :=
  (fold_left (fun config vuln => config +:+ packageOverride vuln)
     (sortedVulns vulnerabilities) (header vulnerabilities managerName),
   vulnerabilities).

End Generate.

(** A line of the file: blank, a comment, the header of a table, or a
    key with its value. *)
Definition TomlLine (l : string) : Prop :=
  l = EmptyString
  \/ JS.startsWith l "#" = true
  \/ l = "[[PackageOverrides]]"
  \/ l = "ignore = true"
  \/ exists key value,
       In key ["ecosystem"; "name"; "version"; "reason"] /\
       JS.includes value nl = false /\
       l = key +:+ " = " +:+ dquote +:+ value +:+ dquote.

Definition OneLine (s : string) : Prop := JS.includes s nl = false.

(** Put before a text whose lines satisfy [P], [block] gives a text whose
    lines satisfy [P]. *)
Definition Prepends (P : string -> Prop) (block : string) : Prop :=
  forall rest,
    Forall P (JS.splitLines rest) -> Forall P (JS.splitLines (block +:+ rest)).

Definition OneLineFields (vuln : Vulnerability) : Prop :=
  OneLine (name vuln) /\ OneLine (version vuln) /\ OneLine (reason vuln) /\
  OneLine (dependency_chain vuln) /\
  Forall OneLine (vulnerability_ids vuln) /\ Forall OneLine (severities vuln).

End Toml.

(** ** Choosing the package manager ([packageManagerDetector.ts]) *)

Module Detector.

Inductive Manager : Type := Yarn | Npm | Pnpm.

Section Detect.

(** The lockfile name declared by the class for npm. *)
Variable npmLockfile : string.

(** [fs.readFileSync(path, 'utf-8')], [None] when it throws;
    [fs.existsSync]; [JSON.parse], [None] when it throws. *)
Variable readFileSync : string -> option string.
Variable existsSync : string -> bool.
Variable JSON_parse : string -> option JSON.value.

Definition lockfile (m : Manager) : string :=
  match m with
  | Yarn => "yarn.lock"
  | Npm => npmLockfile
  | Pnpm => Pnpm.lockfile
  end.

(** [packageJson.packageManager] when the file could be read and holds
    an object whose field is a string.  With any other truthy value of
    the field, [startsWith] is not a function and the call throws; with
    [null] for the whole file, reading the field throws. *)
Definition declaredManager : option string :=
  match readFileSync "package.json" with
  | None => None
  | Some content =>
      match JSON_parse content with
      | Some (JSON.Object members) =>
          match JSON.get "packageManager" members with
          | Some (JSON.Str pmString) => Some pmString
          | _ => None
          end
      | _ => None
      end
  end.

(** What the [try] block returns, if it returns. *)
Definition fromDeclaration : option Manager :=
  match declaredManager with
  | Some pmString =>
      if JS.truthy pmString then
        if JS.startsWith pmString "yarn" then Some Yarn
        else if JS.startsWith pmString "npm" then Some Npm
        else if JS.startsWith pmString "pnpm" then Some Pnpm
        else None
      else None
  | None => None
  end.

Definition fromLockfiles : option Manager :=
  if existsSync (lockfile Yarn) then Some Yarn
  else if existsSync (lockfile Npm) then Some Npm
  else if existsSync (lockfile Pnpm) then Some Pnpm
  else None.

Definition detectPackageManager : option Manager :=
  match fromDeclaration with
  | Some m => Some m
  | None => fromLockfiles
  end.

End Detect.

End Detector.

(** * Properties *)

(** ** Strings *)

Lemma append_assoc (a b c : string) : (a +:+ b) +:+ c = a +:+ (b +:+ c).
Proof. induction a as [|x a IH]; simpl; [reflexivity | now rewrite IH]. Qed.

Lemma append_nil_l (s : string) : EmptyString +:+ s = s.
Proof. reflexivity. Qed.

Lemma append_cons (c : ascii) (a b : string) :
  String c a +:+ b = String c (a +:+ b).
Proof. reflexivity. Qed.

Lemma startsWith_append (p s : string) : JS.startsWith (p +:+ s) p = true.
Proof.
  induction p as [|c p IH]; simpl.
  - now destruct s.
  - now rewrite Ascii.eqb_refl.
Qed.

Lemma startsWith_split (s p : string) :
  JS.startsWith s p = true -> exists b, s = p +:+ b.
Proof.
  revert s; induction p as [|c p IH]; intros s H.
  - now exists s.
  - destruct s as [|d s]; simpl in H; [discriminate|].
    apply andb_prop in H as [Hc Hs].
    apply Ascii.eqb_eq in Hc; subst d.
    destruct (IH _ Hs) as [b ->]. now exists b.
Qed.

Lemma skip_append (p s : string) : JS.skip (String.length p) (p +:+ s) = s.
Proof. induction p as [|c p IH]; simpl; [now destruct s | exact IH]. Qed.

Lemma includes_here (s p : string) :
  JS.startsWith s p = true -> JS.includes s p = true.
Proof. intros H; destruct s; simpl in *; now rewrite H. Qed.

Lemma includes_later (a s p : string) :
  JS.includes s p = true -> JS.includes (a +:+ s) p = true.
Proof.
  intros H; induction a as [|c a IH]; simpl; [exact H|].
  rewrite IH. apply orb_true_r.
Qed.

Lemma includes_intro (a p b : string) : JS.includes (a +:+ p +:+ b) p = true.
Proof. apply includes_later, includes_here, startsWith_append. Qed.

Lemma includes_elim (s p : string) :
  JS.includes s p = true -> exists a b, s = a +:+ p +:+ b.
Proof.
  induction s as [|c s IH]; simpl; intros H.
  - rewrite orb_false_r in H. destruct p; [|discriminate].
    now exists EmptyString, EmptyString.
  - apply orb_prop in H as [H|H].
    + destruct (startsWith_split (String c s) p H) as [b Hb].
      exists EmptyString, b. exact Hb.
    + destruct (IH H) as (a & b & ->). now exists (String c a), b.
Qed.

Lemma includes_tail (c : ascii) (s p : string) :
  JS.includes (String c s) p = false -> JS.includes s p = false.
Proof. simpl. intros H. now apply orb_false_elim in H as [_ H]. Qed.






(** ** Lists *)

Lemma pushWith_thrown (body : Record -> option (list string)) (l : list Record) :
  fold_left (pushWith body) l None = None.
Proof. induction l as [|x l IH]; [reflexivity | exact IH]. Qed.

(** When the loop ends without an exception, every record could be read
    and the chains are those of the records, in order. *)
Lemma pushWith_fold (body : Record -> option (list string)) (l : list Record)
  (acc chains : list string) :
  fold_left (pushWith body) l (Some acc) = Some chains ->
  chains = acc ++ flat_map (fun d => default [] (body d)) l /\
  Forall (fun d => body d <> None) l.
Proof.
  revert acc; induction l as [|x l IH]; intros acc; cbn [fold_left flat_map].
  - intros [= <-]. now rewrite app_nil_r.
  - unfold pushWith at 2. destruct (body x) as [new|] eqn:E.
    + intros H. destruct (IH _ H) as [-> Hall].
      cbn [from_option id]. rewrite <- app_assoc. split; [reflexivity|].
      constructor; [congruence | exact Hall].
    + rewrite pushWith_thrown. discriminate.
Qed.

Lemma pushWith_ext (f g : Record -> option (list string)) (l : list Record)
  (acc : option (list string)) :
  (forall d, f d = g d) ->
  fold_left (pushWith f) l acc = fold_left (pushWith g) l acc.
Proof.
  intros H. revert acc; induction l as [|x l IH]; intros acc; [reflexivity|].
  cbn [fold_left]. unfold pushWith at 2 4. rewrite H. apply IH.
Qed.

Lemma pushWith_none (body : Record -> option (list string))
  (l : list Record) (acc : list string) :
  fold_left (pushWith body) l (Some acc) = None ->
  exists d, In d l /\ body d = None.
Proof.
  revert acc; induction l as [|x l IH]; intros acc; cbn [fold_left];
    [discriminate|].
  unfold pushWith at 2. destruct (body x) as [new|] eqn:E.
  - intros H. destruct (IH _ H) as (d & Hd & Hnone).
    exists d. split; [now right | exact Hnone].
  - intros _. exists x. split; [now left | exact E].
Qed.

(** The extractor throws exactly when one of the records cannot be
    read. *)
Lemma extractDependencyChains_throws (versionLines : list Record) :
  extractDependencyChains versionLines = None <-> In RUnreadable versionLines.
Proof.
  unfold extractDependencyChains. split.
  - destruct (pushedChains versionLines) as [chains|] eqn:E; [discriminate|].
    intros _. apply pushWith_none in E as (d & Hd & Hnone).
    destruct d; try discriminate Hnone. exact Hd.
  - intros Hin.
    destruct (pushedChains versionLines) as [chains|] eqn:E; [|reflexivity].
    apply pushWith_fold in E as [_ Hall].
    rewrite List.Forall_forall in Hall. now destruct (Hall _ Hin).
Qed.


Lemma nonEmpty_false {A : Type} (l : list A) : nonEmpty l = false <-> l = [].
Proof. destruct l; cbv [nonEmpty length Nat.ltb Nat.leb]; split; congruence. Qed.


(** ** The loop that removes duplicates *)

(** What the loop keeps true: the set holds the kept chains, no chain is
    kept twice, and chains are only added at the end. *)
Lemma dedup_invariant (l : list string) (seen : gset string) (u : list string) :
  (forall x, x ∈ seen <-> In x u) ->
  NoDup u ->
  exists seen' ext,
    fold_left dedupStep l (seen, u) = (seen', u ++ ext) /\
    (forall x, x ∈ seen' <-> In x (u ++ ext)) /\
    NoDup (u ++ ext) /\
    (forall x, In x ext <-> In x l /\ ~ In x u).
Proof.
  revert seen u; induction l as [|c l IH]; intros seen u Hseen Hnd.
  - exists seen, []. rewrite app_nil_r. simpl.
    split; [reflexivity|]. split; [exact Hseen|]. split; [exact Hnd|].
    intros x; tauto.
  - cbn [fold_left dedupStep]. destruct (bool_decide (c ∈ seen)) eqn:E.
    + apply bool_decide_eq_true in E. apply Hseen in E.
      destruct (IH seen u Hseen Hnd) as (seen' & ext & Hf & Hs & Hn & He).
      exists seen', ext.
      split; [exact Hf|]. split; [exact Hs|]. split; [exact Hn|].
      intros x. rewrite He. simpl. split.
      * intros [H1 H2]. auto.
      * intros [[<-|H1] H2]; [contradiction | auto].
    + apply bool_decide_eq_false in E.
      assert (Hc : ~ In c u) by (intros Hc; apply E, Hseen, Hc).
      destruct (IH ({[c]} ∪ seen) (u ++ [c])) as (seen' & ext & Hf & Hs & Hn & He).
      * intros x. rewrite elem_of_union, elem_of_singleton, in_app_iff, Hseen.
        simpl. intuition congruence.
      * apply NoDup_app. split; [exact Hnd|]. split.
        -- intros x Hx Hx'. apply list_elem_of_In in Hx, Hx'.
           destruct Hx' as [<-|[]]. contradiction.
        -- apply NoDup_singleton.
      * exists seen', (c :: ext).
        rewrite <- app_assoc in Hf, Hs, Hn. simpl in Hf, Hs, Hn.
        split; [exact Hf|]. split; [exact Hs|]. split; [exact Hn|].
        intros x. simpl. rewrite He, in_app_iff. simpl. split.
        -- intros [<-|[H1 H2]]; [auto|]. split; [auto|]. intros Hu. apply H2. auto.
        -- intros [[<-|H1] H2]; [auto|].
           destruct (String.eq_dec c x) as [->|Hne]; [auto|].
           right. split; [exact H1|]. intros [Hu|[Hx|[]]]; [auto | congruence].
Qed.

Lemma removeDuplicates_spec (l : list string) :
  NoDup (removeDuplicates l) /\ (forall x, In x (removeDuplicates l) <-> In x l).
Proof.
  destruct (dedup_invariant l ∅ []) as (seen' & ext & Hf & _ & Hn & He).
  - intros x. rewrite elem_of_empty. simpl. tauto.
  - constructor.
  - unfold removeDuplicates. rewrite Hf. simpl in *. split; [exact Hn|].
    intros x. rewrite He. simpl. tauto.
Qed.

Lemma removeDuplicates_app (l1 l2 : list string) :
  exists ext,
    removeDuplicates (l1 ++ l2) = removeDuplicates l1 ++ ext /\
    (forall x, In x ext <-> In x l2 /\ ~ In x l1).
Proof.
  unfold removeDuplicates. rewrite fold_left_app.
  destruct (dedup_invariant l1 ∅ []) as (seen1 & u1 & Hf1 & Hs1 & Hn1 & He1).
  { intros x. rewrite elem_of_empty. simpl. tauto. }
  { constructor. }
  rewrite Hf1. simpl in *.
  destruct (dedup_invariant l2 seen1 u1 Hs1 Hn1) as (seen2 & ext & Hf2 & _ & _ & He2).
  rewrite Hf2. simpl. exists ext. split; [reflexivity|].
  intros x. rewrite He2, He1. tauto.
Qed.

(** ** The segmenter *)

(** Cutting a stream at its markers loses nothing: every block starts
    with a marker, and no other record of the cut stream is one. *)
Lemma blocksOf_partition (rs : list Record) :
  fst (blocksOf rs) ++ concat (map blockRecords (snd (blocksOf rs))) = rs /\
  Forall (fun r => isFound r = false) (fst (blocksOf rs)) /\
  Forall (fun b => isFound (fst b) = true /\
                   Forall (fun r => isFound r = false) (snd b))
         (snd (blocksOf rs)).
Proof.
  induction rs as [|r rs (IH1 & IH2 & IH3)]; simpl.
  - repeat constructor.
  - destruct (blocksOf rs) as [pre bs]. simpl in *.
    destruct (isFound r) eqn:E; simpl.
    + split; [now rewrite IH1|]. split; [constructor|].
      constructor; [split; assumption | assumption].
    + split; [now rewrite IH1|]. split; [now constructor | assumption].
Qed.



Lemma isMatching_isFound (version : string) (r : Record) :
  isMatching version r = true -> isFound r = true.
Proof. destruct r; simpl; try discriminate. now intros [H _]%andb_prop. Qed.

(** The state of the loop after a stream, read against the cut of the
    stream: the open block goes on up to the first marker, and every
    later block is kept when its marker announces the version. *)
Lemma segRecord_blocks (version : string) (rs : list Record) (st : SegState) :
  (inVersionBlock st = false -> currentBlock st = []) ->
  segFinish (fold_left (segRecord version) rs st)
  = concat (versionBlocks st)
    ++ (if inVersionBlock st then currentBlock st ++ fst (blocksOf rs) else [])
    ++ concat (map blockRecords
                 (List.filter (fun b => isMatching version (fst b))
                    (snd (blocksOf rs)))).
Proof.
  revert st; induction rs as [|r rs IH]; intros [vb cb inside] Hinv; simpl in Hinv.
  - simpl. unfold segFinish. cbn [versionBlocks currentBlock inVersionBlock].
    rewrite !app_nil_r. destruct inside; simpl.
    + destruct (nonEmpty cb) eqn:E; [now rewrite concat_app; simpl; rewrite app_nil_r|].
      apply nonEmpty_false in E as ->. now rewrite app_nil_r.
    + now rewrite app_nil_r.
  - cbn [fold_left]. destruct (blocksOf rs) as [pre bs] eqn:Hb.
    assert (Hcut : blocksOf (r :: rs)
                   = if isFound r then ([], (r, pre) :: bs) else (r :: pre, bs))
      by (simpl; now rewrite Hb).
    destruct (isMatching version r) eqn:Em.
    + (* a marker of the version: the open block is closed, a new one opened *)
      pose proof (isMatching_isFound _ _ Em) as Ef.
      destruct r as [d| | | | |]; try discriminate. cbn [isMatching isFound] in Em, Ef.
      rewrite Hcut. cbn [isFound]. rewrite Ef.
      unfold segRecord. rewrite Em.
      cbn [inVersionBlock versionBlocks currentBlock].
      rewrite IH by (cbn; discriminate).
      cbn [inVersionBlock versionBlocks currentBlock fst snd List.filter isMatching].
      rewrite Em. cbn [fst snd map concat blockRecords].
      destruct (nonEmpty cb) eqn:E.
      * destruct inside; [|rewrite Hinv in E by reflexivity; discriminate].
        rewrite concat_app. simpl. rewrite !app_nil_r, <- !app_assoc. reflexivity.
      * apply nonEmpty_false in E as ->. destruct inside; simpl; reflexivity.
    + destruct (isFound r) eqn:Ef.
      * (* a marker of another version: the open block is closed *)
        destruct r as [d| | | | |]; try discriminate. cbn [isMatching isFound] in Em, Ef.
        rewrite Hcut.
        unfold segRecord. rewrite Em, Ef.
        cbn [inVersionBlock versionBlocks currentBlock].
        rewrite IH by (cbn; reflexivity).
        cbn [inVersionBlock versionBlocks currentBlock fst snd List.filter isMatching].
        rewrite Em. cbn [fst snd].
        destruct inside; cbn [andb].
        -- destruct (nonEmpty cb) eqn:E.
           ++ rewrite concat_app. simpl. rewrite !app_nil_r, <- !app_assoc. reflexivity.
           ++ apply nonEmpty_false in E as ->. reflexivity.
        -- reflexivity.
      * (* not a marker: appended to the open block, if there is one *)
        rewrite Hcut.
        assert (Hst : segRecord version (mkSeg vb cb inside) r
                      = if inside then mkSeg vb (cb ++ [r]) true
                        else mkSeg vb cb inside).
        { unfold segRecord. destruct r as [d| | | | |]; try reflexivity.
          cbn [isMatching isFound] in Em, Ef. rewrite Ef. reflexivity. }
        rewrite Hst. destruct inside.
        -- rewrite IH by (cbn; discriminate).
           cbn [inVersionBlock versionBlocks currentBlock fst snd].
           rewrite <- !app_assoc. reflexivity.
        -- rewrite IH by exact Hinv.
           cbn [inVersionBlock versionBlocks currentBlock fst snd].
           reflexivity.
Qed.

(** ** The two patterns *)

Lemma firstMatch_found {A : Type} (here : string -> option A) (s : string) (x : A) :
  firstMatch here s = Some x -> exists a t, s = a +:+ t /\ here t = Some x.
Proof.
  induction s as [|c s IH]; cbn [firstMatch].
  - destruct (here EmptyString) eqn:E; [|discriminate].
    intros [= ->]. now exists EmptyString, EmptyString.
  - destruct (here (String c s)) eqn:E.
    + intros [= ->]. now exists EmptyString, (String c s).
    + intros H. destruct (IH H) as (a & t & -> & Ht).
      now exists (String c a), t.
Qed.

Lemma firstMatch_finds {A : Type} (here : string -> option A) (a t : string) (x : A) :
  here t = Some x -> exists y, firstMatch here (a +:+ t) = Some y.
Proof.
  intros H. induction a as [|c a IH].
  - rewrite append_nil_l. exists x. destruct t; cbn [firstMatch]; now rewrite H.
  - rewrite append_cons. cbn [firstMatch].
    destruct (here (String c (a +:+ t))); eauto.
Qed.

Lemma matchHere_literal (text : string) (p : list Item) (s : string) :
  matchHere (Literal text :: p) (text +:+ s) = matchHere p s.
Proof. cbn [matchHere]. now rewrite startsWith_append, skip_append. Qed.

Lemma matchHere_literal_inv (text : string) (p : list Item) (s : string)
  (groups : list string) :
  matchHere (Literal text :: p) s = Some groups ->
  exists s', s = text +:+ s' /\ matchHere p s' = Some groups.
Proof.
  cbn [matchHere]. destruct (JS.startsWith s text) eqn:E; [|discriminate].
  apply startsWith_split in E as [s' ->]. rewrite skip_append. eauto.
Qed.

(** A literal can be read in two parts. *)
Lemma matchHere_literal_append (a b : string) (p : list Item) (s : string)
  (groups : list string) :
  matchHere (Literal (a +:+ b) :: p) s = Some groups ->
  exists s', s = a +:+ s' /\ matchHere (Literal b :: p) s' = Some groups.
Proof.
  intros H. apply matchHere_literal_inv in H as (s' & -> & H).
  exists (b +:+ s'). split; [apply append_assoc|].
  now rewrite matchHere_literal.
Qed.

Lemma tryLengths_some (next : string -> option (list string)) (s : string)
  (n : nat) (result : list string) :
  tryLengths next s n = Some result ->
  exists k groups,
    1 <= k <= n /\ next (JS.skip k s) = Some groups /\
    result = JS.prefix k s :: groups.
Proof.
  induction n as [|n IH]; cbn [tryLengths]; [discriminate|].
  destruct (next (JS.skip (S n) s)) as [groups|] eqn:E.
  - intros [= <-]. exists (S n), groups. repeat split; auto; lia.
  - intros H. destruct (IH H) as (k & groups & Hk & Hn & ->).
    exists k, groups. repeat split; auto; lia.
Qed.

Lemma prefix_truthy (c : ascii) (s : string) (k : nat) :
  1 <= k <= runLength c s -> JS.truthy (JS.prefix k s) = true.
Proof.
  destruct s as [|x s]; cbn [runLength]; [lia|].
  destruct k; [lia | reflexivity].
Qed.

(** The group of the first pattern is never empty. *)
Lemma dependsPattern_group (s : string) (groups : list string) :
  matchHere dependsPattern s = Some groups ->
  JS.truthy (group1 (Some groups)) = true.
Proof.
  unfold dependsPattern. intros H.
  apply matchHere_literal_inv in H as (s' & -> & H).
  cbn [matchHere] in H. apply tryLengths_some in H as (k & groups' & Hk & _ & ->).
  cbn [group1]. exact (prefix_truthy _ _ _ Hk).
Qed.

Lemma existsPattern_dependsPattern (t : string) (groups : list string) :
  matchHere existsPattern t = Some groups ->
  exists t', t = "exists because " +:+ t' /\
             matchHere dependsPattern t' = Some groups.
Proof. unfold existsPattern. apply matchHere_literal_append. Qed.

Lemma dependsMatch_captured (info : string) :
  captured (regexMatch dependsPattern info) = false ->
  regexMatch dependsPattern info = None.
Proof.
  destruct (regexMatch dependsPattern info) as [groups|] eqn:E; [|reflexivity].
  apply firstMatch_found in E as (a & t & _ & Ht).
  apply dependsPattern_group in Ht. cbn [captured]. congruence.
Qed.

(** Wherever the second pattern matches, the first one matches too. *)
Lemma existsMatch_dependsMatch (info : string) (groups : list string) :
  regexMatch existsPattern info = Some groups ->
  exists groups', regexMatch dependsPattern info = Some groups'.
Proof.
  intros H. apply firstMatch_found in H as (a & t & -> & Ht).
  apply existsPattern_dependsPattern in Ht as (t' & -> & Ht').
  rewrite <- append_assoc.
  exact (firstMatch_finds (matchHere dependsPattern) _ _ _ Ht').
Qed.

Lemma infoChains_one_pattern (info : string) :
  infoChains info = infoChainsOnePattern info.
Proof.
  unfold infoChains, infoChainsOnePattern.
  destruct (captured (regexMatch dependsPattern info)) eqn:E; [reflexivity|].
  apply dependsMatch_captured in E.
  destruct (regexMatch existsPattern info) as [groups|] eqn:E'; [|reflexivity].
  apply existsMatch_dependsMatch in E' as [groups' Hg]. congruence.
Qed.

Lemma chainsOfRecord_one_pattern (data : Record) :
  chainsOfRecord data = chainsOfRecordOnePattern data.
Proof.
  destruct data; try reflexivity.
  cbn [chainsOfRecord chainsOfRecordOnePattern]. now rewrite infoChains_one_pattern.
Qed.

(** ** Quotes around an item *)

Lemma stripLeadingQuote_quoted (s : string) : stripLeadingQuote (dquote +:+ s) = s.
Proof. reflexivity. Qed.

Lemma stripLeadingQuote_plain (s : string) :
  JS.startsWith s dquote = false -> stripLeadingQuote s = s.
Proof.
  destruct s as [|c s]; [reflexivity|].
  unfold dquote. cbn [JS.startsWith stripLeadingQuote].
  rewrite andb_true_r, Ascii.eqb_sym. now intros ->.
Qed.

Lemma stripTrailingQuote_quoted (s : string) : stripTrailingQuote (s +:+ dquote) = s.
Proof.
  induction s as [|c s IH]; [reflexivity|].
  rewrite append_cons. cbn [stripTrailingQuote].
  destruct (s +:+ dquote) eqn:E; [destruct s; discriminate|].
  now rewrite IH.
Qed.

Lemma stripTrailingQuote_plain (s : string) :
  (forall t, s <> t +:+ dquote) -> stripTrailingQuote s = s.
Proof.
  induction s as [|c s IH]; intros H; [reflexivity|].
  cbn [stripTrailingQuote]. destruct s as [|c' s].
  - destruct (Ascii.eqb c "034") eqn:E; [|reflexivity].
    apply Ascii.eqb_eq in E as ->. now destruct (H EmptyString).
  - f_equal. apply IH. intros t Ht. apply (H (String c t)).
    rewrite append_cons. now rewrite Ht.
Qed.

(** ** The walk *)

Lemma extractChainFromTree_names (names : list string) :
  forall (tree : Node) (parentChain : string),
    walkNames tree = Some names ->
    Forall (fun n => JS.truthy n = true) names ->
    extractChainFromTree tree parentChain
    = Some (if JS.truthy parentChain
            then parentChain +:+ separator +:+ JS.join separator names
            else JS.join separator names).
Proof.
  induction names as [|n ns IH]; intros tree parentChain Hw Hn.
  - destruct tree as [|name [[|child rest]|]]; cbn in Hw; try discriminate.
    destruct (walkNames child); discriminate.
  - inversion Hn as [|? ? Hn1 Hn2]; subst.
    destruct tree as [|name [[|child rest]|]]; cbn [walkNames] in Hw;
      try discriminate.
    + injection Hw as Hn0 Hns. subst n ns. reflexivity.
    + destruct (walkNames child) as [names'|] eqn:Hc; [|discriminate].
      injection Hw as Hn0 Hns. subst n ns. cbn [extractChainFromTree].
      rewrite (IH child _ Hc Hn2).
      assert (Hne : names' <> []).
      { destruct child as [|name' [[|child' rest']|]]; cbn in Hc; try discriminate;
          try (injection Hc as <-; discriminate).
        destruct (walkNames child'); [injection Hc as <-|]; discriminate. }
      destruct names' as [|n' ns']; [contradiction|].
      destruct (JS.truthy parentChain) eqn:Ep.
      * assert (Ht : JS.truthy (parentChain +:+ separator +:+ JS.orElse name EmptyString) = true)
          by (destruct parentChain; [discriminate | reflexivity]).
        rewrite Ht. cbn [JS.join]. now rewrite !append_assoc.
      * rewrite Hn1. reflexivity.
    + injection Hw as Hn0 Hns. subst n ns. reflexivity.
Qed.

Lemma extractChainFromTree_non_object (tree : Node) :
  ReachesNonObject tree -> forall parentChain, extractChainFromTree tree parentChain = None.
Proof. induction 1; intros parentChain; cbn [extractChainFromTree]; auto. Qed.

Lemma removeDuplicates_snoc (l : list string) (c : string) :
  ~ In c l -> removeDuplicates (l ++ [c]) = removeDuplicates l ++ [c].
Proof.
  intros Hc. unfold removeDuplicates. rewrite fold_left_app.
  destruct (dedup_invariant l ∅ []) as (seen1 & u1 & Hf & Hs & _ & He).
  { intros x. rewrite elem_of_empty. simpl. tauto. }
  { constructor. }
  rewrite Hf. cbn [fold_left dedupStep app snd].
  rewrite bool_decide_eq_false_2; [reflexivity|].
  intros Hin. apply Hs, He in Hin as [Hin _]. contradiction.
Qed.



Lemma In_pushIfKept (chain c : string) :
  In chain (pushIfKept c) <-> chain = c /\ keepChain c = true.
Proof.
  unfold pushIfKept. destruct (keepChain c); simpl; intuition congruence.
Qed.

Lemma keepChain_clean (c : string) :
  keepChain c = true ->
  c <> EmptyString /\
  JS.includes c "workspace aggregator" = false /\
  JS.includes c "workspace-aggregator" = false.
Proof.
  unfold keepChain. intros [H1 H2]%andb_prop.
  apply negb_true_iff, orb_false_elim in H2 as [H2 H3].
  split; [now destruct c | now split].
Qed.

Section YarnFacts.

Variable JSON_parse : string -> option Record.
Variable spawnSync : string -> SpawnResult.

(** The loop on lines is the loop on the records of the lines that
    parse. *)
Lemma segLine_records (version : string) (lines : list string) (st : SegState) :
  fold_left (segLine JSON_parse version) lines st
  = fold_left (segRecord version) (omap JSON_parse lines) st.
Proof.
  revert st; induction lines as [|line lines IH]; intros st; [reflexivity|].
  cbn [fold_left omap list_omap]. unfold segLine at 2.
  destruct (JSON_parse line); simpl; apply IH.
Qed.

Lemma extractVersionLines_blocks (lines : list string) (version : string) :
  extractVersionLines JSON_parse lines version
  = concat (map blockRecords (matchingBlocks version (omap JSON_parse lines))).
Proof.
  unfold extractVersionLines. rewrite segLine_records, segRecord_blocks by reflexivity.
  reflexivity.
Qed.

(** C3. For every stream of lines and every target version, the records
    handed to the extractor are the concatenation, in the order met, of
    the blocks opened by a marker of that version: each such block
    starts with its marker (an info record whose message contains the
    marker text and the version after an at sign) and runs to the next
    marker; all of them are kept; a marker of another version is never
    kept, and the records of its block (up to the next marker or the end
    of the stream) are not kept.  On the transcript with two blocks of
    1.0.0 around a block of 2.0.0, the chains of the two blocks of 1.0.0
    are returned and nothing of the block of 2.0.0. *)
Theorem retained_is_matching_blocks (lines : list string) (version : string) :
  let records := omap JSON_parse lines in
  let retained := extractVersionLines JSON_parse lines version in
  retained = concat (map blockRecords (matchingBlocks version records))
  /\ fst (blocksOf records) ++ concat (map blockRecords (snd (blocksOf records)))
     = records
  /\ Forall (fun b => isFound (fst b) = true /\
                      Forall (fun r => isFound r = false) (snd b))
            (snd (blocksOf records))
  /\ (forall b, In b (snd (blocksOf records)) ->
                (isMatching version (fst b) = true <-> In b (matchingBlocks version records)))
  /\ (forall b r, In b (matchingBlocks version records) ->
                  In r (blockRecords b) -> In r retained)
  /\ (forall r, In r retained -> isFound r = true -> isMatching version r = true)
  /\ parseYarnWhyOutput parseLine versionBlocksTranscript "1.0.0"
     = Some "version-1.0.0 | another-1.0.0".
Proof.
  intros records retained.
  assert (Heq : retained = concat (map blockRecords (matchingBlocks version records)))
    by apply extractVersionLines_blocks.
  destruct (blocksOf_partition records) as (Hp1 & Hp2 & Hp3).
  split; [exact Heq|]. split; [exact Hp1|]. split; [exact Hp3|].
  split; [|split; [|split; [|vm_compute; reflexivity]]].
  - intros b Hb. unfold matchingBlocks. rewrite filter_In. tauto.
  - intros b r Hb Hr. rewrite Heq. apply in_concat.
    exists (blockRecords b). split; [now apply in_map | exact Hr].
  - intros r Hr Hf. rewrite Heq in Hr. apply in_concat in Hr as (l & Hl & Hr).
    apply in_map_iff in Hl as (b & <- & Hb).
    unfold matchingBlocks in Hb. apply filter_In in Hb as [Hb Hm].
    destruct Hr as [<-|Hr]; [exact Hm|].
    rewrite List.Forall_forall in Hp3. destruct (Hp3 b Hb) as [_ Hbody].
    rewrite List.Forall_forall in Hbody. rewrite (Hbody r Hr) in Hf. discriminate.
Qed.


(** C10. When the first-child walk from a tree arrives at a node whose
    [children] is a non-empty array with a first element that is [null]
    or not an object, the walk gives [null] whatever the chain built so
    far, and the tree adds no chain: the names met before that point are
    dropped, not pushed as a shorter chain. *)
Theorem walk_into_non_object_gives_nothing (tree : Node) :
  ReachesNonObject tree ->
  (forall parentChain, extractChainFromTree tree parentChain = None)
  /\ treeChains [tree] = []
  /\ (forall before after,
        chainsOfRecord (RTree (Some (before ++ tree :: after)))
        = chainsOfRecord (RTree (Some (before ++ after)))).
Proof.
  intros H. pose proof (extractChainFromTree_non_object tree H) as Hnone.
  split; [exact Hnone|]. split.
  - cbn [treeChains flat_map]. now rewrite Hnone.
  - intros before after. cbn [chainsOfRecord from_option id]. unfold treeChains.
    rewrite !flat_map_app. cbn [flat_map]. now rewrite Hnone.
Qed.

(** C8. The info-text strategy with its two patterns does what the
    strategy with the first pattern alone does: on every message on
    which the pattern starting with [exists because] matches, the other
    pattern matches as well, with a non-empty group, so the second branch
    never pushes a chain, and the extractor without that branch returns
    the same list on every input. *)
Theorem second_pattern_never_contributes :
  (forall info groups,
     regexMatch existsPattern info = Some groups ->
     regexMatch dependsPattern info <> None /\
     captured (regexMatch dependsPattern info) = true)
  /\ (forall info, infoChains info = infoChainsOnePattern info)
  /\ (forall versionLines,
        extractDependencyChains versionLines
        = extractDependencyChainsOnePattern versionLines).
Proof.
  split; [|split].
  - intros info groups H.
    destruct (existsMatch_dependsMatch info groups H) as [groups' Hg].
    split; [congruence|].
    destruct (captured (regexMatch dependsPattern info)) eqn:E; [reflexivity|].
    apply dependsMatch_captured in E. congruence.
  - exact infoChains_one_pattern.
  - intros versionLines.
    unfold extractDependencyChains, extractDependencyChainsOnePattern, pushedChains.
    now rewrite (pushWith_ext _ _ _ _ chainsOfRecord_one_pattern).
Qed.

(** C6. A list record of sub-kind [reasons] pushes, for each of its
    items in order, the item without one double quote at its start and
    one at its end, if they are there, passed through normalisation (the
    token of the root project removed, the chain dropped when empty or
    when it names the workspace aggregator).  The transcript made of a
    marker for 1.0.0 and the reasons [_project_#package-a] and
    [package-b#package-a] gives [package-a | package-b#package-a]. *)
Theorem reasons_items_are_unquoted_and_normalised :
  (forall items,
     chainsOfRecord (RList (Some "reasons") (Some items))
     = Some (List.filter keepChain
               (map (fun item =>
                       JS.replace (stripTrailingQuote (stripLeadingQuote item))
                         "_project_#" EmptyString) items)))
  /\ (forall s, stripLeadingQuote (dquote +:+ s) = s)
  /\ (forall s, JS.startsWith s dquote = false -> stripLeadingQuote s = s)
  /\ (forall s, stripTrailingQuote (s +:+ dquote) = s)
  /\ (forall s, (forall t, s <> t +:+ dquote) -> stripTrailingQuote s = s)
  /\ parseYarnWhyOutput parseLine reasonsTranscript "1.0.0"
     = Some "package-a | package-b#package-a".
Proof.
  split; [|split; [|split; [|split; [|split]]]].
  - intros items. cbn [chainsOfRecord from_option id].
    rewrite bool_decide_eq_true_2 by reflexivity. f_equal.
    unfold reasonsChains, reasonChain, pushIfKept.
    induction items as [|item items IH]; [reflexivity|].
    cbn [flat_map map List.filter]. rewrite IH.
    now destruct (keepChain _).
  - exact stripLeadingQuote_quoted.
  - exact stripLeadingQuote_plain.
  - exact stripTrailingQuote_quoted.
  - exact stripTrailingQuote_plain.
  - vm_compute. reflexivity.
Qed.

(** C5. At most five chains are returned: they are the first five of the
    list without duplicates, in its order, joined with [ | ]; what comes
    after them is left out.  A block with seven distinct reasons gives
    the first five, joined. *)
Theorem at_most_five_chains (output version : string) (unique : list string) :
  extractDependencyChains (retainedRecords JSON_parse output version) = Some unique ->
  returnedChains JSON_parse output version = Some (firstn 5 unique)
  /\ length (firstn 5 unique) = Nat.min 5 (length unique)
  /\ length (firstn 5 unique) <= 5
  /\ (exists omitted, unique = firstn 5 unique ++ omitted)
  /\ parseYarnWhyOutput JSON_parse output version
     = Some (if nonEmpty unique
             then JS.join " | " (firstn 5 unique) else unableToParse)
  /\ parseYarnWhyOutput parseLine capTranscript "1.0.0"
     = Some "chain1 | chain2 | chain3 | chain4 | chain5".
Proof.
  intros H. unfold returnedChains, parseYarnWhyOutput.
  fold (retainedRecords JSON_parse output version). rewrite H.
  split; [reflexivity|]. split; [apply length_firstn|].
  split; [apply firstn_le_length|].
  split; [exists (skipn 5 unique); symmetry; apply firstn_skipn|].
  split; [reflexivity | vm_compute; reflexivity].
Qed.

(** C7. The list of chains has no two equal entries, holds exactly the
    chains pushed by the strategies, and keeps them in the order in which
    each was first pushed: the chains kept before a chain are those
    pushed before its first occurrence, and a later occurrence adds
    nothing.  The same holds of the chains returned for a transcript. *)
Theorem chains_unique_in_first_seen_order
  (versionLines : list Record) (pushed : list string) :
  pushedChains versionLines = Some pushed ->
  exists kept,
    extractDependencyChains versionLines = Some kept
    /\ NoDup kept
    /\ (forall c, In c kept <-> In c pushed)
    /\ (forall before c after,
          pushed = before ++ c :: after -> ~ In c before ->
          exists keptBefore keptAfter,
            kept = keptBefore ++ c :: keptAfter /\
            (forall x, In x keptBefore <-> In x before) /\
            (forall x, In x keptAfter -> In x after /\ x <> c /\ ~ In x before))
    /\ (forall output version returned,
          returnedChains JSON_parse output version = Some returned ->
          NoDup returned).
Proof.
  intros Hp. exists (removeDuplicates pushed).
  unfold extractDependencyChains. rewrite Hp.
  destruct (removeDuplicates_spec pushed) as [Hnd Hin].
  split; [reflexivity|]. split; [exact Hnd|]. split; [exact Hin|]. split.
  - intros before c after Heq Hc.
    destruct (removeDuplicates_app (before ++ [c]) after) as (ext & Hrd & Hext).
    rewrite <- app_assoc in Hrd. cbn [app] in Hrd. rewrite <- Heq in Hrd.
    rewrite removeDuplicates_snoc in Hrd by exact Hc.
    rewrite <- app_assoc in Hrd. cbn [app] in Hrd.
    exists (removeDuplicates before), ext.
    split; [exact Hrd|]. split.
    + intros x. apply removeDuplicates_spec.
    + intros x Hx. apply Hext in Hx as [Hx Hn]. split; [exact Hx|].
      rewrite in_app_iff in Hn. simpl in Hn. split; intros ?; apply Hn; auto.
  - intros output version returned. unfold returnedChains, extractDependencyChains.
    destruct (pushedChains (retainedRecords JSON_parse output version))
      as [chains|]; [|discriminate].
    intros [= <-].
    destruct (removeDuplicates_spec chains) as [Hnd' _].
    rewrite <- (firstn_skipn 5) in Hnd'. now apply NoDup_app in Hnd' as [Hnd' _].
Qed.

(** C4, as amended.  [getDependencyChain] returns one of three things:
    between one and five chains joined with [ | ] when the extractor
    gives at least one chain; the sentinel [Unable to parse yarn output]
    when there is a transcript and the extractor gives no chain; the
    sentinel [Unable to determine dependency chain] when there is no
    transcript (the process runner threw, or [stdout] is missing or
    empty) and also when there is a transcript and reading its records
    throws, which happens exactly when a record that cannot be read is
    among those kept.  The cases exclude one another and the two
    sentinels differ.  The exit code of the process plays no part. *)
Theorem outcomes_of_getDependencyChain (packageName version : string) :
  let result := getDependencyChain JSON_parse spawnSync packageName version in
  let noTranscript :=
    spawnSync packageName = SpawnThrows \/
    (exists status, spawnSync packageName = SpawnReturns status None) \/
    (exists status, spawnSync packageName = SpawnReturns status (Some EmptyString)) in
  let transcriptIs output :=
    (exists status, spawnSync packageName = SpawnReturns status (Some output))
    /\ output <> EmptyString in
  let extracted output :=
    extractDependencyChains (retainedRecords JSON_parse output version) in
  (noTranscript -> result = unableToDetermine)
  /\ (forall output,
        extracted output = None <->
        In RUnreadable (retainedRecords JSON_parse output version))
  /\ (forall output, transcriptIs output -> extracted output = None ->
        result = unableToDetermine)
  /\ (forall output, transcriptIs output -> extracted output = Some [] ->
        result = unableToParse)
  /\ (forall output chains, transcriptIs output ->
        extracted output = Some chains -> chains <> [] ->
        result = JS.join " | " (firstn 5 chains) /\
        returnedChains JSON_parse output version = Some (firstn 5 chains) /\
        1 <= length (firstn 5 chains) <= 5)
  /\ (noTranscript \/ exists output, transcriptIs output)
  /\ (noTranscript -> forall output, ~ transcriptIs output)
  /\ unableToParse <> unableToDetermine.
Proof.
  intros result noTranscript transcriptIs extracted.
  subst result noTranscript transcriptIs extracted. unfold getDependencyChain.
  split; [|split; [|split; [|split; [|split; [|split; [|split]]]]]].
  - intros [-> | [[status ->] | [status ->]]]; reflexivity.
  - intros output. apply extractDependencyChains_throws.
  - intros output [[status ->] Hne] Hthrow.
    destruct output as [|c output]; [contradiction|]. cbn [JS.truthy].
    unfold parseYarnWhyOutput. fold (retainedRecords JSON_parse (String c output) version).
    now rewrite Hthrow.
  - intros output [[status ->] Hne] Hnone.
    destruct output as [|c output]; [contradiction|]. cbn [JS.truthy].
    unfold parseYarnWhyOutput. fold (retainedRecords JSON_parse (String c output) version).
    now rewrite Hnone.
  - intros output chains [[status ->] Hne] Hsome Hchains.
    destruct output as [|c output]; [contradiction|]. cbn [JS.truthy].
    unfold parseYarnWhyOutput, returnedChains.
    fold (retainedRecords JSON_parse (String c output) version). rewrite Hsome.
    destruct chains as [|c0 l]; [contradiction|].
    split; [reflexivity|]. split; [reflexivity|].
    rewrite length_firstn. cbn [length]. lia.
  - destruct (spawnSync packageName) as [|status [[|c output]|]];
      [left; left; reflexivity | left; right; right; eauto | | left; right; left; eauto].
    right. exists (String c output). split; [eauto | discriminate].
  - intros [H | [[st H] | [st H]]] output [[st' H'] Hne];
      rewrite H in H'; congruence.
  - discriminate.
Qed.


End YarnFacts.

(** ** The claims on concrete transcripts *)





(** C4 as first stated does not hold: here a transcript is there, its
    reasons list holds a chain and then a number, reading the number
    throws, and the sentinel returned is the one for a missing
    transcript. *)
Lemma unreadable_record_gives_the_other_sentinel :
  unreadableTranscript <> EmptyString
  /\ retainedRecords parseLine unreadableTranscript "1.0.0"
     = [RInfo (Some "=> Found package-a@1.0.0"); RUnreadable]
  /\ extractDependencyChains (retainedRecords parseLine unreadableTranscript "1.0.0")
     = None
  /\ parseYarnWhyOutput parseLine unreadableTranscript "1.0.0" = None
  /\ getDependencyChain parseLine
       (fun _ => SpawnReturns (Some 0) (Some unreadableTranscript)) "package-a" "1.0.0"
     = unableToDetermine
  /\ unableToDetermine <> unableToParse.
Proof.
  split; [discriminate|]. do 4 (split; [vm_compute; reflexivity|]). discriminate.
Qed.

Lemma at_most_five_chains_witness :
  extractDependencyChains (retainedRecords parseLine capTranscript "1.0.0")
  = Some ["chain1"; "chain2"; "chain3"; "chain4"; "chain5"; "chain6"; "chain7"]
  /\ returnedChains parseLine capTranscript "1.0.0"
     = Some ["chain1"; "chain2"; "chain3"; "chain4"; "chain5"].
Proof.
  assert (H : extractDependencyChains (retainedRecords parseLine capTranscript "1.0.0")
              = Some ["chain1"; "chain2"; "chain3"; "chain4"; "chain5"; "chain6"; "chain7"])
    by (vm_compute; reflexivity).
  split; [exact H|].
  exact (proj1 (at_most_five_chains parseLine capTranscript "1.0.0" _ H)).
Defined.

Lemma chains_unique_in_first_seen_order_witness :
  pushedChains [RList (Some "reasons") (Some ["b"; "a"; "b"; "c"; "a"])]
  = Some ["b"; "a"; "b"; "c"; "a"]
  /\ exists kept,
       extractDependencyChains [RList (Some "reasons") (Some ["b"; "a"; "b"; "c"; "a"])]
       = Some kept /\ NoDup kept.
Proof.
  assert (H : pushedChains [RList (Some "reasons") (Some ["b"; "a"; "b"; "c"; "a"])]
              = Some ["b"; "a"; "b"; "c"; "a"])
    by (vm_compute; reflexivity).
  split; [exact H|].
  destruct (chains_unique_in_first_seen_order parseLine _ _ H) as (kept & H1 & H2 & _).
  exists kept. split; [exact H1 | exact H2].
Defined.

(** C2.  On the transcript of the tree scenario the program returns the
    names joined with the separator written in the source, which is not
    the arrow: the returned text does not contain the chain the scenario
    asks for.  Apart from the separator the walk is as described: when
    no name on the way is empty, the chain is the names of the first-child
    walk joined with the separator. *)
Theorem tree_scenario_has_another_separator :
  parseYarnWhyOutput parseLine treeTranscript "1.0.0"
  = Some ("root" +:+ separator +:+ "package-b" +:+ separator +:+ "package-a@1.0.0")
  /\ getDependencyChain parseLine (fun _ => SpawnReturns (Some 0) (Some treeTranscript))
       "package-a" "1.0.0"
     = "root" +:+ separator +:+ "package-b" +:+ separator +:+ "package-a@1.0.0"
  /\ JS.includes
       (getDependencyChain parseLine (fun _ => SpawnReturns (Some 0) (Some treeTranscript))
          "package-a" "1.0.0")
       ("root" +:+ arrow +:+ "package-b" +:+ arrow +:+ "package-a@1.0.0") = false
  /\ JS.includes
       (getDependencyChain parseLine (fun _ => SpawnReturns (Some 0) (Some treeTranscript))
          "package-a" "1.0.0") arrow = false
  /\ separator <> arrow
  /\ (forall tree names,
        walkNames tree = Some names ->
        Forall (fun n => JS.truthy n = true) names ->
        extractChainFromTree tree EmptyString = Some (JS.join separator names)).
Proof.
  do 4 (split; [vm_compute; reflexivity|]). split; [discriminate|].
  intros tree names Hw Hn.
  exact (extractChainFromTree_names names tree EmptyString Hw Hn).
Qed.



Lemma walk_into_non_object_gives_nothing_witness :
  ReachesNonObject brokenTree
  /\ extractChainFromTree brokenTree EmptyString = None
  /\ treeChains [brokenTree] = [].
Proof.
  assert (H : ReachesNonObject brokenTree) by (apply reaches_below, reaches_here).
  split; [exact H|].
  destruct (walk_into_non_object_gives_nothing brokenTree H) as (H1 & H2 & _).
  split; [apply H1 | exact H2].
Defined.

(** ** The repository's tests, on the model

    The expectations of [yarn.test.ts] that do not involve the separator
    of the tree walk. *)

Example test_real_output_7_0_3 :
  getDependencyChain parseLine
    (fun _ => SpawnReturns (Some 0) (Some realYarnWhyCrossSpawnOutput)) "cross-spawn" "7.0.3"
  = "backend#prisma-dbml-generator#@prisma#generator-helper".
Proof. vm_compute. reflexivity. Qed.

Example test_real_output_7_0_6 :
  parseYarnWhyOutput parseLine realYarnWhyCrossSpawnOutput "7.0.6"
  = Some (dq "Hoisted from 'execa#cross-spawn | Hoisted from 'frontend#patch-package#cross-spawn | Hoisted from 'backend#argon2#cross-env#cross-spawn | Hoisted from 'backend#@nestjs-modules#mailer#glob#foreground-child#cross-spawn").
Proof. vm_compute. reflexivity. Qed.

Example test_real_output_lines :
  length (omap parseLine (JS.splitLines (JS.trim realYarnWhyCrossSpawnOutput))) = 25
  /\ length (retainedRecords parseLine realYarnWhyCrossSpawnOutput "7.0.3") = 6.
Proof. vm_compute. split; reflexivity. Qed.

Example test_multiple_version_blocks :
  parseYarnWhyOutput parseLine versionBlocksTranscript "1.0.0"
  = Some "version-1.0.0 | another-1.0.0".
Proof. vm_compute. reflexivity. Qed.

Example test_invalid_json_line :
  parseYarnWhyOutput parseLine invalidLineTranscript "1.0.0" = Some "valid-chain".
Proof. vm_compute. reflexivity. Qed.

Example test_workspace_aggregator :
  parseYarnWhyOutput parseLine aggregatorTranscript "1.0.0" = Some "project#package-a".
Proof. vm_compute. reflexivity. Qed.

Example test_duplicates :
  parseYarnWhyOutput parseLine duplicatesTranscript "1.0.0"
  = Some "package-b#package-a | package-c#package-a".
Proof. vm_compute. reflexivity. Qed.

Example test_null_tree :
  parseYarnWhyOutput parseLine nullTreeTranscript "1.0.0" = Some "valid-package".
Proof. vm_compute. reflexivity. Qed.

Example test_mixed :
  parseYarnWhyOutput parseLine mixedTranscript "1.0.0" = Some "reason-chain | tree-chain".
Proof. vm_compute. reflexivity. Qed.

Example test_unknown_type :
  getDependencyChain parseLine (fun _ => SpawnReturns (Some 0) (Some unknownTranscript))
    "package-a" "1.0.0"
  = "Unable to parse yarn output".
Proof. vm_compute. reflexivity. Qed.

Example test_no_marker :
  parseYarnWhyOutput parseLine noMarkerTranscript "1.0.0" = Some "Unable to parse yarn output".
Proof. vm_compute. reflexivity. Qed.

Example test_no_stdout :
  getDependencyChain parseLine (fun _ => SpawnReturns (Some 0) (Some EmptyString)) "package-a" "1.0.0"
  = "Unable to determine dependency chain"
  /\ getDependencyChain parseLine (fun _ => SpawnReturns (Some 0) None) "package-a" "1.0.0"
     = "Unable to determine dependency chain"
  /\ getDependencyChain parseLine (fun _ => SpawnThrows) "package-a" "1.0.0"
     = "Unable to determine dependency chain".
Proof. vm_compute. repeat split; reflexivity. Qed.

(** The exit code is not read: a run that ends with code 1 and has left
    text on its standard output is parsed like any other. *)
Example failed_run_with_output :
  getDependencyChain parseLine (fun _ => SpawnReturns (Some 1) (Some versionBlocksTranscript))
    "package-a" "1.0.0"
  = "version-1.0.0 | another-1.0.0".
Proof. vm_compute. reflexivity. Qed.

(** The real output again: the target 7.0 takes the blocks of 7.0.6 and
    of 7.0.3. *)
Example real_output_prefix_version :
  parseYarnWhyOutput parseLine realYarnWhyCrossSpawnOutput "7.0"
  = Some (dq "Hoisted from 'execa#cross-spawn | Hoisted from 'frontend#patch-package#cross-spawn | Hoisted from 'backend#argon2#cross-env#cross-spawn | Hoisted from 'backend#@nestjs-modules#mailer#glob#foreground-child#cross-spawn | backend#prisma-dbml-generator#@prisma#generator-helper").
Proof. vm_compute. reflexivity. Qed.

(** * Further properties

    Properties of the code around the extractor: the rest of its loops,
    the other methods of the package managers, and the readers of the
    returned chain. *)

(** * Further properties of the extractor *)

(** ** Blocks *)

Lemma blocksOf_app_found (a : list Record) (m : Record) (rest : list Record) :
  isFound m = true ->
  blocksOf (a ++ m :: rest)
  = (fst (blocksOf a),
     snd (blocksOf a) ++ (m, fst (blocksOf rest)) :: snd (blocksOf rest)).
Proof.
  intros Hm. induction a as [|x a IH]; cbn [app blocksOf].
  - rewrite Hm. now destruct (blocksOf rest).
  - rewrite IH. destruct (blocksOf a) as [pre bs]. cbn [fst snd].
    now destruct (isFound x).
Qed.

Lemma blockRecords_concat_nil (bs : list (Record * list Record)) :
  concat (map blockRecords bs) = [] -> bs = [].
Proof. destruct bs as [|b bs]; [reflexivity | discriminate]. Qed.

Lemma not_found_not_matching (version : string) (r : Record) :
  isFound r = false -> isMatching version r = false.
Proof.
  intros H. destruct (isMatching version r) eqn:E; [|reflexivity].
  apply isMatching_isFound in E. congruence.
Qed.

Lemma matchingBlocks_nil (version : string) (rs : list Record) :
  matchingBlocks version rs = [] <->
  Forall (fun r => isMatching version r = false) rs.
Proof.
  unfold matchingBlocks.
  destruct (blocksOf_partition rs) as (Hrs & Hpre & Hbs).
  destruct (blocksOf rs) as [pre bs]. cbn [fst snd] in *. split.
  - intros Hnil. rewrite <- Hrs. apply Forall_app. split.
    + eapply List.Forall_impl; [|exact Hpre].
      intros r. apply not_found_not_matching.
    + clear Hrs Hpre. induction bs as [|b bs IH]; [constructor|].
      inversion Hbs as [|? ? [Hb1 Hb2] Hbs']; subst.
      cbn [List.filter] in Hnil.
      destruct (isMatching version (fst b)) eqn:E; [discriminate|].
      cbn [map concat blockRecords]. constructor; [exact E|].
      apply Forall_app. split; [|exact (IH Hbs' Hnil)].
      eapply List.Forall_impl; [|exact Hb2].
      intros r. apply not_found_not_matching.
  - intros Hall. rewrite <- Hrs in Hall.
    apply Forall_app in Hall as [_ Hall]. clear Hrs Hpre Hbs.
    induction bs as [|b bs IH]; [reflexivity|].
    cbn [map concat blockRecords] in Hall.
    inversion Hall as [|? ? Hb Hrest]; subst.
    apply Forall_app in Hrest as [_ Hrest].
    cbn [List.filter]. rewrite Hb. exact (IH Hrest).
Qed.

(** ** Duplicates *)

Lemma removeDuplicates_NoDup (l : list string) :
  NoDup l -> removeDuplicates l = l.
Proof.
  induction l as [|c l IH] using rev_ind; [reflexivity|].
  intros Hn. apply NoDup_app in Hn as (Hl & Hc & _).
  rewrite removeDuplicates_snoc.
  - now rewrite IH.
  - intros Hin. apply (Hc c); [now apply list_elem_of_In | now left].
Qed.

Section MoreYarnFacts.

Variable JSON_parse : string -> option Record.
Variable spawnSync : string -> SpawnResult.

(** X1. A line that cannot be parsed is passed over: wherever it stands
    among the lines, the records kept for the version are those kept
    without it. *)
Theorem unparsable_line_is_skipped (pre post : list string) (line version : string) :
  JSON_parse line = None ->
  extractVersionLines JSON_parse (pre ++ line :: post) version
  = extractVersionLines JSON_parse (pre ++ post) version.
Proof.
  intros H. rewrite !extractVersionLines_blocks, !omap_app.
  cbn [omap list_omap]. now rewrite H.
Qed.

(** X2. Nothing is kept exactly when no line of the transcript parses to
    a marker of the version, whatever else the transcript holds; the
    parser then answers that the output could not be parsed. *)
Theorem nothing_retained_without_matching_marker (output version : string) :
  (retainedRecords JSON_parse output version = [] <->
   Forall (fun r => isMatching version r = false)
          (omap JSON_parse (JS.splitLines (JS.trim output))))
  /\ (retainedRecords JSON_parse output version = [] ->
      parseYarnWhyOutput JSON_parse output version = Some unableToParse).
Proof.
  unfold retainedRecords, parseYarnWhyOutput. split.
  - rewrite extractVersionLines_blocks, <- matchingBlocks_nil. split.
    + apply blockRecords_concat_nil.
    + now intros ->.
  - now intros ->.
Qed.

(** X3. A marker line starts afresh: the records kept from a stream of
    lines cut before a line that parses to a marker (of any version) are
    those kept from the lines before it followed by those kept from the
    marker line on. *)
Theorem blocks_compose_at_a_marker
  (before after : list string) (line version : string) (marker : Record) :
  JSON_parse line = Some marker ->
  isFound marker = true ->
  extractVersionLines JSON_parse (before ++ line :: after) version
  = extractVersionLines JSON_parse before version
    ++ extractVersionLines JSON_parse (line :: after) version.
Proof.
  intros Hp Hm. rewrite !extractVersionLines_blocks, omap_app.
  cbn [omap list_omap]. rewrite Hp. unfold matchingBlocks.
  rewrite (blocksOf_app_found _ _ _ Hm).
  pose proof (blocksOf_app_found [] marker (omap JSON_parse after) Hm) as Hb.
  cbn [app] in Hb. rewrite Hb. cbn [fst snd blocksOf app].
  now rewrite List.filter_app, List.map_app, List.concat_app.
Qed.

End MoreYarnFacts.

Lemma unparsable_line_is_skipped_witness :
  parseLine "yarn why v1.22.19" = None
  /\ extractVersionLines parseLine
       [dq "{'type':'info','data':'=> Found pkg@1.0.0'}"; "yarn why v1.22.19";
        dq "{'type':'step','data':{}}"] "1.0.0"
     = extractVersionLines parseLine
         [dq "{'type':'info','data':'=> Found pkg@1.0.0'}";
          dq "{'type':'step','data':{}}"] "1.0.0".
Proof.
  assert (H : parseLine "yarn why v1.22.19" = None) by (vm_compute; reflexivity).
  split; [exact H|].
  exact (unparsable_line_is_skipped parseLine
           [dq "{'type':'info','data':'=> Found pkg@1.0.0'}"]
           [dq "{'type':'step','data':{}}"] _ "1.0.0" H).
Defined.

Lemma blocks_compose_at_a_marker_witness :
  parseLine (dq "{'type':'info','data':'=> Found pkg@2.0.0'}")
  = Some (RInfo (Some "=> Found pkg@2.0.0"))
  /\ isFound (RInfo (Some "=> Found pkg@2.0.0")) = true
  /\ extractVersionLines parseLine
       ([dq "{'type':'info','data':'=> Found pkg@1.0.0'}"]
        ++ dq "{'type':'info','data':'=> Found pkg@2.0.0'}"
           :: [dq "{'type':'step','data':{}}"]) "1.0.0"
     = extractVersionLines parseLine
         [dq "{'type':'info','data':'=> Found pkg@1.0.0'}"] "1.0.0"
       ++ extractVersionLines parseLine
            (dq "{'type':'info','data':'=> Found pkg@2.0.0'}"
             :: [dq "{'type':'step','data':{}}"]) "1.0.0".
Proof.
  assert (H1 : parseLine (dq "{'type':'info','data':'=> Found pkg@2.0.0'}")
               = Some (RInfo (Some "=> Found pkg@2.0.0")))
    by (vm_compute; reflexivity).
  assert (H2 : isFound (RInfo (Some "=> Found pkg@2.0.0")) = true)
    by (vm_compute; reflexivity).
  split; [exact H1|]. split; [exact H2|].
  exact (blocks_compose_at_a_marker parseLine _ _ _ "1.0.0" _ H1 H2).
Defined.

(** X4. The loop that removes duplicates changes a list exactly when it
    has a duplicate, and a second pass changes nothing. *)
Theorem distinct_chains_pass_unchanged (chains : list string) :
  (removeDuplicates chains = chains <-> NoDup chains)
  /\ removeDuplicates (removeDuplicates chains) = removeDuplicates chains.
Proof.
  split; [split|].
  - intros <-. apply removeDuplicates_spec.
  - apply removeDuplicates_NoDup.
  - apply removeDuplicates_NoDup, removeDuplicates_spec.
Qed.

Lemma append_empty_r (s : string) : s +:+ EmptyString = s.
Proof. induction s as [|c s IH]; simpl; [reflexivity | now rewrite IH]. Qed.

Lemma join_walkTail (n : string) (ns : list string) :
  JS.join separator (n :: ns) = n +:+ walkTail ns.
Proof.
  revert n; induction ns as [|m ns IH]; intros n.
  - cbn [JS.join walkTail]. now rewrite append_empty_r.
  - change (JS.join separator (n :: m :: ns))
      with (n +:+ separator +:+ JS.join separator (m :: ns)).
    rewrite IH. reflexivity.
Qed.

Lemma truthy_append (a b : string) :
  JS.truthy a = true -> JS.truthy (a +:+ b) = true.
Proof. now destruct a. Qed.

Lemma falsy_empty (s : string) : JS.truthy s = false -> s = EmptyString.
Proof. now destruct s. Qed.

(** The chain built by the walk, for every tree and every chain handed
    down: behind a chain that is not empty every name is appended; with
    no chain yet, the empty names at the head leave no trace. *)
Lemma extractChainFromTree_walk :
  forall (tree : Node) (parentChain : string),
    extractChainFromTree tree parentChain
    = option_map
        (fun names =>
           if JS.truthy parentChain then parentChain +:+ walkTail names
           else JS.join separator (dropLeadingEmpty names))
        (walkNames tree).
Proof.
  fix IH 1. intros [|name [[|child rest]|]] parentChain.
  - reflexivity.
  - cbn [extractChainFromTree walkNames option_map walkTail dropLeadingEmpty].
    destruct (JS.truthy parentChain).
    + now rewrite append_empty_r.
    + destruct (JS.truthy (JS.orElse name EmptyString)) eqn:E; [reflexivity|].
      apply falsy_empty in E. now rewrite E.
  - cbn [extractChainFromTree walkNames]. rewrite IH.
    destruct (walkNames child) as [names|]; [|reflexivity].
    cbn [option_map walkTail dropLeadingEmpty]. f_equal.
    destruct (JS.truthy parentChain) eqn:Ep.
    + rewrite truthy_append by exact Ep. now rewrite !append_assoc.
    + destruct (JS.truthy (JS.orElse name EmptyString)) eqn:E; [|reflexivity].
      destruct names as [|m ms].
      * cbn [walkTail JS.join]. now rewrite append_empty_r.
      * now rewrite join_walkTail.
  - cbn [extractChainFromTree walkNames option_map walkTail dropLeadingEmpty].
    destruct (JS.truthy parentChain).
    + now rewrite append_empty_r.
    + destruct (JS.truthy (JS.orElse name EmptyString)) eqn:E; [reflexivity|].
      apply falsy_empty in E. now rewrite E.
Qed.

(** X5. The chain the walk builds from a root, for every tree: the names
    met on the first-child walk, without the empty names at the head,
    joined with the separator; nothing when the walk arrives at something
    that is not an object.  A tree whose names on the walk are all empty
    or missing pushes no chain. *)
Theorem walk_passes_over_leading_empty_names (tree : Node) :
  extractChainFromTree tree EmptyString
  = option_map (fun names => JS.join separator (dropLeadingEmpty names))
      (walkNames tree)
  /\ (forall names,
        walkNames tree = Some names ->
        Forall (fun n => n = EmptyString) names ->
        treeChains [tree] = []).
Proof.
  split; [exact (extractChainFromTree_walk tree EmptyString)|].
  intros names Hw Hall. unfold treeChains. cbn [flat_map].
  rewrite (extractChainFromTree_walk tree EmptyString), Hw.
  cbn [option_map JS.truthy].
  assert (Hd : dropLeadingEmpty names = []).
  { clear Hw. induction Hall as [|n ns -> _ IH]; [reflexivity | exact IH]. }
  now rewrite Hd.
Qed.

(** ** One character in a string *)

Lemma includes_single_cons (c x : ascii) (s : string) :
  JS.includes (String x s) (single c) = Ascii.eqb c x || JS.includes s (single c).
Proof. cbn [JS.includes JS.startsWith single]. now rewrite andb_true_r. Qed.

Lemma includes_single_append (c : ascii) (a b : string) :
  JS.includes (a +:+ b) (single c)
  = JS.includes a (single c) || JS.includes b (single c).
Proof.
  induction a as [|x a IH].
  - rewrite append_nil_l. destruct b; reflexivity.
  - rewrite append_cons, !includes_single_cons, IH. apply orb_assoc.
Qed.

Lemma includes_single_skip (c : ascii) (n : nat) (s : string) :
  JS.includes s (single c) = false -> JS.includes (JS.skip n s) (single c) = false.
Proof.
  revert s; induction n as [|n IH]; intros [|x s] H; cbn [JS.skip]; auto.
  apply IH. rewrite includes_single_cons in H. now apply orb_false_elim in H.
Qed.

Lemma includes_single_replace (c : ascii) (s pat rep : string) :
  JS.includes s (single c) = false ->
  JS.includes rep (single c) = false ->
  JS.includes (JS.replace s pat rep) (single c) = false.
Proof.
  intros H Hrep. induction s as [|x s IH]; cbn [JS.replace].
  - destruct (JS.startsWith EmptyString pat); [|exact H].
    rewrite includes_single_append, Hrep. now apply includes_single_skip.
  - destruct (JS.startsWith (String x s) pat).
    + rewrite includes_single_append, Hrep. now apply includes_single_skip.
    + rewrite includes_single_cons in *.
      apply orb_false_elim in H as [H1 H2]. now rewrite H1, IH.
Qed.

Lemma prefix_skip (k : nat) (s : string) : JS.prefix k s +:+ JS.skip k s = s.
Proof.
  revert s; induction k as [|k IH]; intros [|x s]; cbn [JS.prefix JS.skip];
    try reflexivity.
  now rewrite append_cons, IH.
Qed.

Lemma prefix_run (c : ascii) (s : string) (k : nat) :
  k <= runLength c s -> JS.includes (JS.prefix k s) (single c) = false.
Proof.
  revert s; induction k as [|k IH]; intros [|x s]; cbn [JS.prefix runLength];
    try reflexivity.
  destruct (Ascii.eqb x c) eqn:E; [lia|]. intros Hk.
  rewrite includes_single_cons, Ascii.eqb_sym, E. apply IH. lia.
Qed.

Lemma runLength_append (c : ascii) (x rest : string) :
  JS.includes x (single c) = false ->
  runLength c (x +:+ String c rest) = String.length x.
Proof.
  induction x as [|y x IH]; intros H.
  - rewrite append_nil_l. cbn [runLength]. now rewrite Ascii.eqb_refl.
  - rewrite includes_single_cons in H. apply orb_false_elim in H as [H1 H2].
    rewrite append_cons. cbn [runLength String.length].
    rewrite Ascii.eqb_sym, H1. now rewrite IH.
Qed.

Lemma prefix_append (x rest : string) : JS.prefix (String.length x) (x +:+ rest) = x.
Proof. induction x as [|y x IH]; cbn; [now destruct rest | now rewrite IH]. Qed.

(** ** The text captured by the first pattern *)

(** A match of the first pattern: the message holds, between double
    quotes and before the words, the text captured, which is not empty
    and holds no double quote. *)
Lemma dependsPattern_shape (info : string) (groups : list string) :
  regexMatch dependsPattern info = Some groups ->
  exists a x b,
    info = a +:+ dquote +:+ x +:+ dependsOnIt +:+ b /\
    groups = [x] /\ JS.truthy x = true /\
    JS.includes x dquote = false.
Proof.
  intros H. apply firstMatch_found in H as (a & t & -> & H).
  unfold dependsPattern in H.
  apply matchHere_literal_inv in H as (s & -> & H).
  cbn [matchHere] in H.
  apply tryLengths_some in H as (k & groups' & Hk & Hnext & ->).
  destruct (JS.startsWith (JS.skip k s) (dquote +:+ " depends on it")) eqn:E;
    [|discriminate].
  injection Hnext as <-. apply startsWith_split in E as [b Hb].
  exists a, (JS.prefix k s), b. repeat split.
  - unfold dependsOnIt. rewrite <- Hb. now rewrite prefix_skip.
  - exact (prefix_truthy _ _ _ Hk).
  - apply (prefix_run "034"). lia.
Qed.

Lemma matchHere_group (c : ascii) (p : list Item) (s : string) :
  matchHere (GroupOfNot c :: p) s = tryLengths (matchHere p) s (runLength c s).
Proof. reflexivity. Qed.

Lemma dependsOnIt_cons (post : string) :
  dependsOnIt +:+ post = String "034" (" depends on it" +:+ post).
Proof. reflexivity. Qed.

Lemma tryLengths_full (next : string -> option (list string)) (s : string)
  (k : nat) (groups : list string) :
  1 <= k ->
  next (JS.skip k s) = Some groups ->
  tryLengths next s k = Some (JS.prefix k s :: groups).
Proof. destruct k; [lia|]. intros _ H. cbn [tryLengths]. now rewrite H. Qed.

Lemma dependsPattern_first (pre x post : string) :
  JS.includes pre dquote = false ->
  JS.includes x dquote = false ->
  JS.truthy x = true ->
  regexMatch dependsPattern (pre +:+ dquote +:+ x +:+ dependsOnIt +:+ post)
  = Some [x].
Proof.
  intros Hpre Hx Ht. unfold regexMatch.
  assert (Hhere : matchHere dependsPattern (dquote +:+ x +:+ dependsOnIt +:+ post)
                  = Some [x]).
  { unfold dependsPattern. rewrite matchHere_literal, matchHere_group.
    change (dquote +:+ " depends on it") with dependsOnIt.
    rewrite (dependsOnIt_cons post), runLength_append by exact Hx.
    rewrite <- dependsOnIt_cons.
    rewrite (tryLengths_full _ _ _ []).
    - now rewrite prefix_append.
    - destruct x; [discriminate | cbn; lia].
    - now rewrite skip_append, matchHere_literal. }
  induction pre as [|c pre IH].
  - rewrite append_nil_l.
    destruct (dquote +:+ x +:+ dependsOnIt +:+ post); cbn [firstMatch];
      now rewrite Hhere.
  - change dquote with (single "034") in Hpre.
    rewrite includes_single_cons in Hpre.
    apply orb_false_elim in Hpre as [Hc Hpre].
    rewrite append_cons. cbn [firstMatch].
    assert (Hno : matchHere dependsPattern
                    (String c (pre +:+ dquote +:+ x +:+ dependsOnIt +:+ post)) = None).
    { unfold dependsPattern, dquote. cbn [matchHere JS.startsWith]. now rewrite Hc. }
    rewrite Hno. exact (IH Hpre).
Qed.

(** X6. An info message pushes at most one chain.  The chain is not
    empty, holds no double quote, and is the text the message holds
    between double quotes right before the words depends on it, less the
    first project token. *)
Theorem info_message_gives_at_most_one_chain (info : string) :
  length (infoChains info) <= 1
  /\ (forall chain,
        In chain (infoChains info) ->
        chain <> EmptyString
        /\ JS.includes chain dquote = false
        /\ exists a x b,
             info = a +:+ dquote +:+ x +:+ dependsOnIt +:+ b
             /\ JS.includes x dquote = false
             /\ chain = JS.replace x "_project_#" EmptyString).
Proof.
  rewrite infoChains_one_pattern. unfold infoChainsOnePattern.
  destruct (captured (regexMatch dependsPattern info)) eqn:Ec.
  - split; [unfold pushIfKept; destruct (keepChain _); cbn; lia|].
    intros chain [-> Hk]%In_pushIfKept.
    destruct (regexMatch dependsPattern info) as [groups|] eqn:Em;
      [|discriminate].
    apply dependsPattern_shape in Em as (a & x & b & Hinfo & -> & _ & Hx).
    cbn [group1] in *. split; [exact (proj1 (keepChain_clean _ Hk))|].
    split; [exact (includes_single_replace "034" x _ EmptyString Hx eq_refl)|].
    now exists a, x, b.
  - split; [cbn; lia | intros chain []].
Qed.

(** X7. When the message holds no double quote before a quoted text that
    is followed by the words depends on it, that text is the one
    captured, whatever follows: it is pushed without its first project
    token, if the test on chains keeps it. *)
Theorem first_quoted_consumer_is_captured (pre x post : string) :
  JS.includes pre dquote = false ->
  JS.includes x dquote = false ->
  x <> EmptyString ->
  infoChains (pre +:+ dquote +:+ x +:+ dependsOnIt +:+ post)
  = pushIfKept (JS.replace x "_project_#" EmptyString).
Proof.
  intros Hpre Hx Hne.
  assert (Ht : JS.truthy x = true) by (destruct x; [congruence | reflexivity]).
  rewrite infoChains_one_pattern. unfold infoChainsOnePattern.
  rewrite (dependsPattern_first pre x post Hpre Hx Ht).
  cbn [captured group1]. now rewrite Ht.
Qed.

Lemma first_quoted_consumer_is_captured_witness :
  JS.includes "This module exists because " dquote = false
  /\ JS.includes "_project_#backend#argon2" dquote = false
  /\ "_project_#backend#argon2" <> EmptyString
  /\ infoChains
       (dq "This module exists because '_project_#backend#argon2' depends on it.")
     = ["backend#argon2"].
Proof.
  assert (H1 : JS.includes "This module exists because " dquote = false)
    by reflexivity.
  assert (H2 : JS.includes "_project_#backend#argon2" dquote = false)
    by reflexivity.
  assert (H3 : "_project_#backend#argon2" <> EmptyString) by discriminate.
  split; [exact H1|]. split; [exact H2|]. split; [exact H3|].
  exact (first_quoted_consumer_is_captured
           "This module exists because " "_project_#backend#argon2" "." H1 H2 H3).
Defined.

(** ** Chains are never empty *)




Section NeverEmpty.

Variable JSON_parse : string -> option Record.
Variable spawnSync : string -> SpawnResult.


End NeverEmpty.

(** ** Trimming *)

Lemma length_append (a b : string) :
  String.length (a +:+ b) = String.length a + String.length b.
Proof. induction a as [|c a IH]; cbn; [now destruct b | now rewrite IH]. Qed.

Lemma length_of_list (l : list ascii) :
  String.length (string_of_list_ascii l) = length l.
Proof. induction l as [|c l IH]; cbn; [reflexivity | now rewrite IH]. Qed.

Lemma length_to_list (s : string) :
  length (list_ascii_of_string s) = String.length s.
Proof. induction s as [|c s IH]; cbn; [reflexivity | now rewrite IH]. Qed.

Lemma to_list_append (a b : string) :
  list_ascii_of_string (a +:+ b) = list_ascii_of_string a ++ list_ascii_of_string b.
Proof. induction a as [|c a IH]; cbn; [now destruct b | now rewrite IH]. Qed.

Lemma of_list_app (l1 l2 : list ascii) :
  string_of_list_ascii (l1 ++ l2) = string_of_list_ascii l1 +:+ string_of_list_ascii l2.
Proof. induction l1 as [|c l1 IH]; cbn; [reflexivity | now rewrite IH]. Qed.

Lemma reverse_length (s : string) : String.length (JS.reverse s) = String.length s.
Proof. unfold JS.reverse. now rewrite length_of_list, length_rev, length_to_list. Qed.

Lemma reverse_involutive (s : string) : JS.reverse (JS.reverse s) = s.
Proof.
  unfold JS.reverse.
  now rewrite list_ascii_of_string_of_list_ascii, rev_involutive,
    string_of_list_ascii_of_string.
Qed.

Lemma reverse_append (a b : string) :
  JS.reverse (a +:+ b) = JS.reverse b +:+ JS.reverse a.
Proof. unfold JS.reverse. now rewrite to_list_append, rev_app_distr, of_list_app. Qed.

Lemma startsWith_longer (s p b : string) :
  JS.startsWith s p = true -> JS.startsWith (s +:+ b) p = true.
Proof.
  intros [c ->]%startsWith_split. rewrite append_assoc. apply startsWith_append.
Qed.

Lemma stripOne_none (pats : list string) (s : string) :
  JS.stripOne pats s = None <-> Forall (fun p => JS.startsWith s p = false) pats.
Proof.
  induction pats as [|p pats IH]; cbn [JS.stripOne].
  - split; [constructor | reflexivity].
  - destruct (JS.startsWith s p) eqn:E.
    + split; [discriminate|]. intros H. inversion H; congruence.
    + rewrite IH. split; [now constructor | now inversion 1].
Qed.

Lemma stripOne_some (pats : list string) (s s' : string) :
  JS.stripOne pats s = Some s' -> exists p, In p pats /\ s = p +:+ s'.
Proof.
  induction pats as [|p pats IH]; cbn [JS.stripOne]; [discriminate|].
  destruct (JS.startsWith s p) eqn:E.
  - intros [= <-]. exists p. split; [now left|].
    apply startsWith_split in E as [b ->]. now rewrite skip_append.
  - intros H. destruct (IH H) as (q & Hq & ->). exists q. split; [now right | reflexivity].
Qed.

Lemma stripAll_done (pats : list string) (fuel : nat) (s : string) :
  Forall (fun p => p <> EmptyString) pats ->
  String.length s <= fuel ->
  JS.stripOne pats (JS.stripAll pats fuel s) = None.
Proof.
  intros Hne. revert s; induction fuel as [|fuel IH]; intros s Hlen.
  - cbn [JS.stripAll]. destruct s; [|cbn in Hlen; lia].
    apply stripOne_none. eapply List.Forall_impl; [|exact Hne].
    intros [|c p] Hp; [congruence | reflexivity].
  - cbn [JS.stripAll]. destruct (JS.stripOne pats s) as [s'|] eqn:E; [|exact E].
    apply IH. apply stripOne_some in E as (p & Hp & ->).
    rewrite List.Forall_forall in Hne. specialize (Hne _ Hp).
    rewrite length_append in Hlen. destruct p; [congruence | cbn in Hlen; lia].
Qed.

Lemma stripAll_suffix (pats : list string) (fuel : nat) (s : string) :
  exists a, s = a +:+ JS.stripAll pats fuel s.
Proof.
  revert s; induction fuel as [|fuel IH]; intros s; cbn [JS.stripAll].
  - now exists EmptyString.
  - destruct (JS.stripOne pats s) as [s'|] eqn:E; [|now exists EmptyString].
    apply stripOne_some in E as (p & _ & ->).
    destruct (IH s') as [a Ha]. exists (p +:+ a).
    rewrite append_assoc. now rewrite <- Ha.
Qed.

Lemma stripAll_fixed (pats : list string) (fuel : nat) (s : string) :
  JS.stripOne pats s = None -> JS.stripAll pats fuel s = s.
Proof. intros H. destruct fuel; cbn [JS.stripAll]; [reflexivity | now rewrite H]. Qed.

Lemma whiteSpace_nonEmpty : Forall (fun p => p <> EmptyString) JS.whiteSpace.
Proof. repeat constructor; discriminate. Qed.

Lemma whiteSpace_reversed_nonEmpty :
  Forall (fun p => p <> EmptyString) (map JS.reverse JS.whiteSpace).
Proof. repeat constructor; discriminate. Qed.

Lemma trimStart_clean (s : string) : JS.stripOne JS.whiteSpace (JS.trimStart s) = None.
Proof. apply stripAll_done; [apply whiteSpace_nonEmpty | lia]. Qed.

Lemma trimEnd_clean (s : string) :
  JS.stripOne (map JS.reverse JS.whiteSpace) (JS.reverse (JS.trimEnd s)) = None.
Proof.
  unfold JS.trimEnd. rewrite reverse_involutive.
  apply stripAll_done; [apply whiteSpace_reversed_nonEmpty|].
  now rewrite reverse_length.
Qed.

Lemma trimEnd_prefix (s : string) : exists b, s = JS.trimEnd s +:+ b.
Proof.
  unfold JS.trimEnd.
  destruct (stripAll_suffix (map JS.reverse JS.whiteSpace) (String.length s)
              (JS.reverse s)) as [a Ha].
  exists (JS.reverse a).
  rewrite <- reverse_append, <- Ha. now rewrite reverse_involutive.
Qed.

Lemma Trimmed_strip (s : string) :
  Trimmed s <->
  JS.stripOne JS.whiteSpace s = None /\
  JS.stripOne (map JS.reverse JS.whiteSpace) (JS.reverse s) = None.
Proof.
  rewrite !stripOne_none, List.Forall_map, !List.Forall_forall. unfold Trimmed, endsWith.
  split.
  - intros H. split; intros w Hw; now destruct (H w Hw).
  - intros [H1 H2] w Hw. split; [exact (H1 w Hw) | exact (H2 w Hw)].
Qed.

(** What [trim] returns has no white space at either end, and [trim]
    leaves such text as it is. *)
Lemma trim_Trimmed (s : string) : Trimmed (JS.trim s).
Proof.
  apply Trimmed_strip. split; [|apply trimEnd_clean].
  unfold JS.trim. pose proof (trimStart_clean s) as Hs.
  destruct (trimEnd_prefix (JS.trimStart s)) as [b Hb].
  rewrite stripOne_none in *. eapply List.Forall_impl; [|exact Hs].
  intros w Hw. cbn beta in Hw.
  destruct (JS.startsWith (JS.trimEnd (JS.trimStart s)) w) eqn:E; [|reflexivity].
  apply (startsWith_longer _ _ b) in E. rewrite <- Hb in E. congruence.
Qed.

Lemma trim_of_Trimmed (s : string) : Trimmed s -> JS.trim s = s.
Proof.
  intros [H1 H2]%Trimmed_strip. unfold JS.trim, JS.trimStart.
  rewrite (stripAll_fixed _ _ _ H1). unfold JS.trimEnd.
  rewrite (stripAll_fixed _ _ _ H2). apply reverse_involutive.
Qed.

(** ** Splitting a chain *)

Lemma split_absent (sep s : string) :
  JS.includes s sep = false -> Index.split sep s 0 = [s].
Proof.
  induction s as [|x s IH]; intros H; [reflexivity|].
  pose proof (includes_tail _ _ _ H) as Ht.
  cbn [JS.includes] in H. apply orb_false_elim in H as [H _].
  cbn [Index.split]. rewrite H. now rewrite (IH Ht).
Qed.

Lemma split_drop (sep a t : string) :
  Index.split sep (a +:+ t) (String.length a) = Index.split sep t 0.
Proof.
  induction a as [|x a IH]; [reflexivity|].
  rewrite append_cons. cbn [String.length Index.split]. exact IH.
Qed.

(** A part that does not hold the first character of the separator ends
    at the separator behind it. *)
Lemma split_part (c : ascii) (sep' n t : string) :
  JS.includes n (single c) = false ->
  Index.split (String c sep') (n +:+ String c sep' +:+ t) 0
  = n :: Index.split (String c sep') t 0.
Proof.
  induction n as [|x n IH]; intros H.
  - rewrite append_nil_l, append_cons. cbn [Index.split].
    rewrite <- (append_cons c sep' t), startsWith_append.
    cbn [String.length]. rewrite Nat.sub_1_r. cbn [Nat.pred].
    now rewrite split_drop.
  - rewrite includes_single_cons in H. apply orb_false_elim in H as [Hx Hn].
    rewrite append_cons. cbn [Index.split JS.startsWith]. rewrite Hx.
    cbn [andb]. now rewrite (IH Hn).
Qed.

Lemma split_join (c : ascii) (sep' : string) (names : list string) :
  names <> [] ->
  Forall (fun n => JS.includes n (single c) = false) names ->
  Index.split (String c sep') (JS.join (String c sep') names) 0 = names.
Proof.
  intros Hne Hall. induction Hall as [|n rest Hn Hrest IH]; [congruence|].
  destruct rest as [|m rest].
  - cbn [JS.join]. apply split_absent.
    destruct (JS.includes n (String c sep')) eqn:E; [|reflexivity].
    apply includes_elim in E as (a & b & ->).
    rewrite append_cons, !includes_single_append, includes_single_cons in Hn.
    rewrite Ascii.eqb_refl in Hn. cbn [orb] in Hn.
    now rewrite orb_true_r in Hn.
  - change (JS.join (String c sep') (n :: m :: rest))
      with (n +:+ String c sep' +:+ JS.join (String c sep') (m :: rest)).
    rewrite (split_part c sep' n _ Hn). f_equal. apply IH. discriminate.
Qed.

(** A text that holds [p] holds every character of [p]. *)
Lemma includes_char (s a b : string) (c : ascii) :
  JS.includes s (a +:+ String c b) = true -> JS.includes s (single c) = true.
Proof.
  intros (x & y & ->)%includes_elim.
  rewrite !includes_single_append, includes_single_cons, Ascii.eqb_refl.
  cbn [orb]. now rewrite !orb_true_r.
Qed.

(** ** Visible text *)

Lemma graphic_not_space (x : ascii) (s : string) :
  graphic x = true -> Index.spaceAhead (String x s) = false.
Proof.
  intros Hg. unfold Index.spaceAhead, JS.whiteSpace.
  cbn [map JS.ofBytes string_of_list_ascii existsb JS.startsWith].
  repeat match goal with
         | |- context [Ascii.eqb ?b x] =>
             let E := fresh in
             destruct (Ascii.eqb_spec b x) as [E|E];
             [rewrite <- E in Hg; vm_compute in Hg; discriminate Hg | clear E]
         end.
  reflexivity.
Qed.

Lemma graphic_not_space_behind (x : ascii) (s : string) :
  graphic x = true ->
  existsb (JS.startsWith (String x s)) (map JS.reverse JS.whiteSpace) = false.
Proof.
  intros Hg. set (pats := map JS.reverse JS.whiteSpace). vm_compute in pats.
  subst pats. cbn [existsb JS.startsWith].
  repeat match goal with
         | |- context [Ascii.eqb ?b x] =>
             let E := fresh in
             destruct (Ascii.eqb_spec b x) as [E|E];
             [rewrite <- E in Hg; vm_compute in Hg; discriminate Hg | clear E]
         end.
  reflexivity.
Qed.

Lemma existsb_none {A : Type} (f : A -> bool) (l : list A) :
  existsb f l = false <-> Forall (fun x => f x = false) l.
Proof.
  induction l as [|x l IH]; cbn [existsb].
  - split; [constructor | reflexivity].
  - rewrite orb_false_iff, IH. split; [intros []; now constructor | now inversion 1].
Qed.

Lemma reverse_snoc (s : string) (y : ascii) :
  JS.reverse (s +:+ single y) = String y (JS.reverse s).
Proof. now rewrite reverse_append. Qed.

(** A text whose first and last characters are printable and not spaces
    is trimmed. *)
Lemma Trimmed_between (x y : ascii) (s1 s2 : string) :
  graphic x = true -> graphic y = true ->
  String x s1 = s2 +:+ single y ->
  Trimmed (String x s1).
Proof.
  intros Hx Hy Heq. apply Trimmed_strip. split.
  - apply stripOne_none, existsb_none. exact (graphic_not_space x s1 Hx).
  - rewrite Heq, reverse_snoc. apply stripOne_none, existsb_none.
    exact (graphic_not_space_behind y _ Hy).
Qed.

Lemma visible_append (a b : string) : visible (a +:+ b) = visible a && visible b.
Proof.
  induction a as [|x a IH]; [now rewrite append_nil_l|].
  rewrite append_cons. cbn [visible]. now rewrite IH, andb_assoc.
Qed.

Lemma visible_last (n : string) :
  visible n = true -> n <> EmptyString ->
  exists s y, n = s +:+ single y /\ graphic y = true.
Proof.
  induction n as [|x n IH]; [congruence|]. cbn [visible].
  intros [Hx Hn]%andb_prop _. destruct n as [|x' n'].
  - now exists EmptyString, x.
  - destruct (IH Hn) as (s & y & Hs & Hy); [discriminate|].
    exists (String x s), y. rewrite append_cons, <- Hs. now split.
Qed.

Lemma visible_Trimmed (n : string) : visible n = true -> Trimmed n.
Proof.
  intros Hv. destruct n as [|x n].
  - apply Trimmed_strip. split; reflexivity.
  - destruct (visible_last _ Hv) as (s & y & Hs & Hy); [discriminate|].
    cbn [visible] in Hv. apply andb_prop in Hv as [Hx _].
    exact (Trimmed_between x y n s Hx Hy Hs).
Qed.

Lemma visible_no_char (c : ascii) (n : string) :
  graphic c = false -> visible n = true -> JS.includes n (single c) = false.
Proof.
  intros Hc. induction n as [|x n IH]; [reflexivity|]. cbn [visible].
  intros [Hx Hn]%andb_prop. rewrite includes_single_cons, (IH Hn), orb_false_r.
  apply Ascii.eqb_neq. intros ->. congruence.
Qed.

(** ** The name at the head of a part *)

Lemma nameRun_name (n rest : string) :
  visible n = true ->
  JS.includes n (single "@") = false ->
  Index.nameRun rest = EmptyString ->
  Index.nameRun (n +:+ rest) = n.
Proof.
  intros Hv Hat Hrest. induction n as [|x n IH]; [exact Hrest|].
  cbn [visible] in Hv. apply andb_prop in Hv as [Hx Hn].
  rewrite includes_single_cons in Hat. apply orb_false_elim in Hat as [Hxa Hat].
  rewrite append_cons. cbn [Index.nameRun].
  rewrite Ascii.eqb_sym, Hxa, (graphic_not_space x _ Hx). cbn [orb].
  now rewrite (IH Hn Hat).
Qed.

Lemma nameMatch_name (n rest : string) :
  n <> EmptyString ->
  visible n = true ->
  JS.includes n (single "@") = false ->
  Index.nameRun rest = EmptyString ->
  Index.nameMatch (n +:+ rest) = Some n
  /\ Index.nameMatch (String "@" (n +:+ rest)) = Some (String "@" n).
Proof.
  intros Hne Hv Hat Hrest.
  pose proof (nameRun_name n rest Hv Hat Hrest) as Hrun.
  destruct n as [|x n]; [congruence|]. split.
  - rewrite append_cons in *. cbn [Index.nameMatch].
    rewrite includes_single_cons in Hat. apply orb_false_elim in Hat as [Hxa _].
    rewrite Ascii.eqb_sym, Hxa, Hrun. reflexivity.
  - cbn [Index.nameMatch]. rewrite Ascii.eqb_refl, Hrun. reflexivity.
Qed.

Lemma render_visible (e : Entry) :
  WellFormed e -> visible (render e) = true /\ render e <> EmptyString.
Proof.
  intros (Hne & Hv & _ & Hver). unfold render, packageOf. split.
  - rewrite !visible_append, Hv.
    destruct (scoped e), (versionOf e) as [v|]; cbn [visible andb]; try reflexivity;
      rewrite visible_append, Hver; reflexivity.
  - destruct (scoped e); [discriminate|]. rewrite append_nil_l.
    destruct (bare e); [congruence | discriminate].
Qed.

Lemma nameMatch_render (e : Entry) :
  WellFormed e -> Index.nameMatch (JS.trim (render e)) = Some (packageOf e).
Proof.
  intros Hwf. rewrite trim_of_Trimmed
    by (apply visible_Trimmed; exact (proj1 (render_visible e Hwf))).
  destruct Hwf as (Hne & Hv & Hat & _). unfold render, packageOf.
  assert (Hrest : Index.nameRun
                    match versionOf e with
                    | Some v => "@" +:+ v
                    | None => EmptyString
                    end = EmptyString) by (now destruct (versionOf e)).
  destruct (nameMatch_name _ _ Hne Hv Hat Hrest) as [H1 H2].
  destruct (scoped e).
  - rewrite append_assoc. exact H2.
  - rewrite append_nil_l. exact H1.
Qed.

Lemma omap_render (es : list Entry) :
  Forall WellFormed es ->
  omap (fun part => Index.nameMatch (JS.trim part)) (map render es)
  = map packageOf es.
Proof.
  induction 1 as [|e es He _ IH]; [reflexivity|].
  cbn [map omap list_omap]. now rewrite (nameMatch_render e He), IH.
Qed.

Lemma render_no_space (e : Entry) :
  WellFormed e -> JS.includes (render e) (single " ") = false.
Proof.
  intros Hwf. apply visible_no_char; [reflexivity|].
  exact (proj1 (render_visible e Hwf)).
Qed.

Lemma no_space_no_bar (s : string) :
  JS.includes s (single " ") = false -> JS.includes s " | " = false.
Proof.
  intros H. destruct (JS.includes s " | ") eqn:E; [|reflexivity].
  apply (includes_char s EmptyString "| " " ") in E. congruence.
Qed.

Lemma no_space_no_arrow (s : string) :
  JS.includes s (single " ") = false -> JS.includes s Index.arrowOfIndex = false.
Proof.
  intros H. destruct (JS.includes s Index.arrowOfIndex) eqn:E; [|reflexivity].
  unfold Index.arrowOfIndex in E.
  match type of E with
  | JS.includes s (String ?c ?b) = true =>
      apply (includes_char s EmptyString b c) in E
  end.
  congruence.
Qed.

Lemma parts_of_rendered_entries (entries : list Entry) :
  Forall WellFormed entries ->
  Index.parts (JS.join " | " (map render entries))
  = match entries with
    | [] => [EmptyString]
    | _ => map render entries
    end.
Proof.
  intros Hwf. unfold Index.parts. destruct entries as [|e [|e' rest]].
  - reflexivity.
  - inversion Hwf as [|? ? He _]; subst. cbn [map JS.join].
    pose proof (render_no_space e He) as Hs.
    rewrite (no_space_no_bar _ Hs).
    apply split_absent, no_space_no_arrow, Hs.
  - change (JS.join " | " (map render (e :: e' :: rest)))
      with (render e +:+ " | " +:+ JS.join " | " (map render (e' :: rest))).
    rewrite includes_intro.
    change (render e +:+ " | " +:+ JS.join " | " (map render (e' :: rest)))
      with (JS.join (String " " "| ") (map render (e :: e' :: rest))).
    apply split_join; [discriminate|].
    apply List.Forall_map. eapply List.Forall_impl; [|exact Hwf].
    exact render_no_space.
Qed.

(** X11. From a chain of entries joined with a bar between spaces, each
    entry a package name (made of printable characters without a space
    or an at sign), with an at sign before it when it has a scope and
    maybe a version behind an at sign, the names are read back in order,
    scope kept and version left out. *)
Theorem package_names_of_a_joined_chain (entries : list Entry) :
  Forall WellFormed entries ->
  Index.extractPackageNamesFromChain (JS.join " | " (map render entries))
  = map packageOf entries.
Proof.
  intros Hwf. unfold Index.extractPackageNamesFromChain.
  rewrite (parts_of_rendered_entries entries Hwf).
  destruct entries as [|e rest]; [reflexivity|].
  exact (omap_render _ Hwf).
Qed.

Lemma package_names_of_a_joined_chain_witness :
  Forall WellFormed
    [mkEntry false "backend#argon2" None;
     mkEntry true "nestjs/core" (Some "10.0.0");
     mkEntry false "lodash" (Some "4.17.21")]
  /\ Index.extractPackageNamesFromChain
       "backend#argon2 | @nestjs/core@10.0.0 | lodash@4.17.21"
     = ["backend#argon2"; "@nestjs/core"; "lodash"].
Proof.
  assert (H : Forall WellFormed
                [mkEntry false "backend#argon2" None;
                 mkEntry true "nestjs/core" (Some "10.0.0");
                 mkEntry false "lodash" (Some "4.17.21")]).
  { repeat constructor; try discriminate; reflexivity. }
  split; [exact H|].
  exact (package_names_of_a_joined_chain _ H).
Defined.

(** ** A chain built by the tree walk, read by [index.ts] *)

Lemma includes_single_walkTail (c : ascii) (names : list string) :
  JS.includes separator (single c) = false ->
  Forall (fun n => JS.includes n (single c) = false) names ->
  JS.includes (walkTail names) (single c) = false.
Proof.
  intros Hsep. induction 1 as [|n ns Hn _ IH]; [reflexivity|].
  cbn [walkTail]. now rewrite !includes_single_append, Hsep, Hn, IH.
Qed.

Lemma walkTail_last (n : string) (rest : list string) :
  n <> EmptyString -> visible n = true ->
  Forall (fun m => m <> EmptyString /\ visible m = true) rest ->
  exists s y, n +:+ walkTail rest = s +:+ single y /\ graphic y = true.
Proof.
  intros Hne Hv Hall. revert n Hne Hv.
  induction Hall as [|m ms [Hm1 Hm2] _ IH]; intros n Hne Hv.
  - cbn [walkTail]. rewrite append_empty_r. now apply visible_last.
  - destruct (IH m Hm1 Hm2) as (s & y & Hs & Hy).
    exists (n +:+ separator +:+ s), y. split; [|exact Hy].
    cbn [walkTail]. now rewrite Hs, !append_assoc.
Qed.

Lemma nameRun_walkTail (rest : list string) :
  Index.nameRun (walkTail rest) = EmptyString.
Proof. now destruct rest. Qed.

Lemma root_of_a_tree_chain (root : string) (below : list string) :
  Forall (fun n => n <> EmptyString /\ visible n = true /\
                   JS.includes n (single "@") = false /\
                   JS.includes n (single "|") = false) (root :: below) ->
  Index.extractPackageNamesFromChain (JS.join separator (root :: below)) = [root].
Proof.
  intros Hall. rewrite join_walkTail.
  inversion Hall as [|? ? (Hne & Hv & Hat & Hbar) Hbelow]; subst.
  assert (Hvis : Forall (fun m => m <> EmptyString /\ visible m = true) below)
    by (eapply List.Forall_impl; [|exact Hbelow]; intros m (H1 & H2 & _); now split).
  assert (Hno : forall c,
             graphic c = false -> JS.includes separator (single c) = false ->
             JS.includes (root +:+ walkTail below) (single c) = false).
  { intros c Hc Hsep. rewrite includes_single_append, (visible_no_char c root Hc Hv).
    apply includes_single_walkTail; [exact Hsep|].
    eapply List.Forall_impl; [|exact Hbelow].
    intros m (_ & Hm & _). exact (visible_no_char c m Hc Hm). }
  assert (Hbar' : JS.includes (root +:+ walkTail below) " | " = false).
  { destruct (JS.includes (root +:+ walkTail below) " | ") eqn:E; [|reflexivity].
    apply (includes_char _ " " " " "|") in E.
    rewrite includes_single_append, Hbar in E.
    rewrite includes_single_walkTail in E; [discriminate | reflexivity|].
    eapply List.Forall_impl; [|exact Hbelow]. now intros m (_ & _ & _ & H). }
  assert (Harrow : JS.includes (root +:+ walkTail below) Index.arrowOfIndex = false).
  { destruct (JS.includes (root +:+ walkTail below) Index.arrowOfIndex) eqn:E;
      [|reflexivity].
    apply (includes_char _ (JS.ofBytes [32; 226; 128])
             (JS.ofBytes [195; 156; 195; 173; 32]) (ascii_of_nat 154)) in E.
    rewrite Hno in E; [discriminate | reflexivity | reflexivity]. }
  unfold Index.extractPackageNamesFromChain, Index.parts.
  rewrite Hbar', (split_absent _ _ Harrow). cbn [omap list_omap].
  destruct (walkTail_last root below Hne Hv Hvis) as (s & y & Hs & Hy).
  assert (Htrim : JS.trim (root +:+ walkTail below) = root +:+ walkTail below).
  { apply trim_of_Trimmed. destruct root as [|x root']; [congruence|].
    rewrite append_cons in *. cbn [visible] in Hv. apply andb_prop in Hv as [Hx _].
    exact (Trimmed_between x y _ s Hx Hy Hs). }
  rewrite Htrim.
  now rewrite (proj1 (nameMatch_name root _ Hne Hv Hat (nameRun_walkTail below))).
Qed.

(** X12. The chain the tree walk of [yarn.ts] builds is not cut by
    [index.ts], whose separator is another text: when the names met on
    the walk are printable and hold no space, at sign or bar, the walk
    gives their join with the separator of [yarn.ts], and of that chain
    [extractPackageNamesFromChain] reads the name of the root alone. *)
Theorem only_the_root_of_a_tree_chain_is_read
  (tree : Node) (root : string) (below : list string) :
  walkNames tree = Some (root :: below) ->
  Forall (fun n => n <> EmptyString /\ visible n = true /\
                   JS.includes n (single "@") = false /\
                   JS.includes n (single "|") = false) (root :: below) ->
  extractChainFromTree tree EmptyString = Some (JS.join separator (root :: below))
  /\ Index.extractPackageNamesFromChain (JS.join separator (root :: below)) = [root].
Proof.
  intros Hw Hall. split; [|exact (root_of_a_tree_chain root below Hall)].
  rewrite extractChainFromTree_walk, Hw. cbn [option_map JS.truthy dropLeadingEmpty].
  inversion Hall as [|? ? (Hne & _) _]; subst.
  now destruct root.
Qed.

Lemma only_the_root_of_a_tree_chain_is_read_witness :
  let tree :=
    Obj (Some "root")
      (Some [Obj (Some "package-b") (Some [Obj (Some "package-a") None]);
             Obj (Some "package-c") None]) in
  walkNames tree = Some ["root"; "package-b"; "package-a"]
  /\ Forall (fun n => n <> EmptyString /\ visible n = true /\
                      JS.includes n (single "@") = false /\
                      JS.includes n (single "|") = false)
            ["root"; "package-b"; "package-a"]
  /\ extractChainFromTree tree EmptyString
     = Some ("root" +:+ separator +:+ "package-b" +:+ separator +:+ "package-a")
  /\ Index.extractPackageNamesFromChain
       ("root" +:+ separator +:+ "package-b" +:+ separator +:+ "package-a")
     = ["root"].
Proof.
  cbn zeta.
  assert (Hw : walkNames
                 (Obj (Some "root")
                    (Some [Obj (Some "package-b") (Some [Obj (Some "package-a") None]);
                           Obj (Some "package-c") None]))
               = Some ["root"; "package-b"; "package-a"]) by reflexivity.
  assert (H : Forall (fun n => n <> EmptyString /\ visible n = true /\
                               JS.includes n (single "@") = false /\
                               JS.includes n (single "|") = false)
                     ["root"; "package-b"; "package-a"]).
  { repeat constructor; try discriminate; reflexivity. }
  split; [exact Hw|]. split; [exact H|].
  exact (only_the_root_of_a_tree_chain_is_read _ "root" ["package-b"; "package-a"] Hw H).
Defined.

(** ** The shape of an extracted name *)

Lemma nameRun_prefix (s : string) : exists b, s = Index.nameRun s +:+ b.
Proof.
  induction s as [|x s [b IH]]; [now exists EmptyString|].
  cbn [Index.nameRun]. destruct (_ || _).
  - now exists (String x s).
  - exists b. now rewrite append_cons, <- IH.
Qed.

Lemma startsWith_empty (w : string) :
  w <> EmptyString -> JS.startsWith EmptyString w = false.
Proof. now destruct w. Qed.

Lemma nameRun_clean (s : string) :
  JS.includes (Index.nameRun s) (single "@") = false
  /\ Forall (fun w => JS.includes (Index.nameRun s) w = false) JS.whiteSpace.
Proof.
  induction s as [|x s [IH1 IH2]].
  - split; [reflexivity|]. cbn [Index.nameRun JS.includes].
    eapply List.Forall_impl; [|exact whiteSpace_nonEmpty].
    intros w Hw. cbn beta in *. now rewrite startsWith_empty.
  - cbn [Index.nameRun].
    destruct (Ascii.eqb x "@") eqn:Ex; cbn [orb].
    { split; [reflexivity|].
      eapply List.Forall_impl; [|exact whiteSpace_nonEmpty].
      intros w Hw. cbn beta in *. cbn [JS.includes]. now rewrite startsWith_empty. }
    destruct (Index.spaceAhead (String x s)) eqn:Es.
    { split; [reflexivity|].
      eapply List.Forall_impl; [|exact whiteSpace_nonEmpty].
      intros w Hw. cbn beta in *. cbn [JS.includes]. now rewrite startsWith_empty. }
    split.
    + now rewrite includes_single_cons, Ascii.eqb_sym, Ex, IH1.
    + apply existsb_none in Es.
      rewrite List.Forall_forall in *. intros w Hw.
      cbn [JS.includes]. rewrite (IH2 w Hw), orb_false_r.
      destruct (JS.startsWith (String x (Index.nameRun s)) w) eqn:E; [|reflexivity].
      destruct (nameRun_prefix s) as [b Hb].
      apply (startsWith_longer _ _ b) in E. rewrite append_cons, <- Hb in E.
      rewrite (Es w Hw) in E. discriminate.
Qed.

(** X13. For every chain, at most one name is read per part, and every
    name read is a run that is not empty and holds neither an at sign nor
    a white space character, with maybe one at sign before it. *)
Theorem extracted_names_have_no_space_and_no_version (depChain : string) :
  length (Index.extractPackageNamesFromChain depChain) <= length (Index.parts depChain)
  /\ (forall name,
        In name (Index.extractPackageNamesFromChain depChain) ->
        exists run,
          (name = run \/ name = String "@" run)
          /\ run <> EmptyString
          /\ JS.includes run (single "@") = false
          /\ Forall (fun w => JS.includes run w = false) JS.whiteSpace).
Proof.
  unfold Index.extractPackageNamesFromChain. split.
  - induction (Index.parts depChain) as [|p ps IH]; [reflexivity|].
    cbn [omap list_omap length]. destruct (Index.nameMatch (JS.trim p)); cbn [length]; lia.
  - intros name Hin. apply list_elem_of_In, list_elem_of_omap in Hin as (part & _ & Hm).
    unfold Index.nameMatch in Hm.
    destruct (JS.trim part) as [|c rest]; [discriminate|].
    destruct (Ascii.eqb c "@") eqn:Ec.
    + apply Ascii.eqb_eq in Ec as ->.
      destruct (JS.truthy (Index.nameRun rest)) eqn:Et; [|discriminate].
      injection Hm as <-. exists (Index.nameRun rest).
      split; [now right|]. split; [now destruct (Index.nameRun rest)|].
      apply nameRun_clean.
    + destruct (JS.truthy (Index.nameRun (String c rest))) eqn:Et; [|discriminate].
      injection Hm as <-. exists (Index.nameRun (String c rest)).
      split; [now left|]. split; [now destruct (Index.nameRun (String c rest))|].
      apply nameRun_clean.
Qed.

(** ** The lines of the generated file *)

Lemma OneLine_append (a b : string) :
  Toml.OneLine (a +:+ b) <-> Toml.OneLine a /\ Toml.OneLine b.
Proof.
  unfold Toml.OneLine. change Toml.nl with (single "010").
  rewrite includes_single_append. apply orb_false_iff.
Qed.

Lemma OneLine_join (sep : string) (l : list string) :
  Toml.OneLine sep -> Forall Toml.OneLine l -> Toml.OneLine (JS.join sep l).
Proof.
  intros Hsep. induction 1 as [|x l Hx Hl IH]; [reflexivity|].
  destruct l as [|y l]; [exact Hx|].
  change (JS.join sep (x :: y :: l)) with (x +:+ sep +:+ JS.join sep (y :: l)).
  rewrite !OneLine_append. auto.
Qed.

Lemma OneLine_prefix (k : nat) (s : string) :
  Toml.OneLine s -> Toml.OneLine (JS.prefix k s).
Proof.
  unfold Toml.OneLine. change Toml.nl with (single "010").
  revert s; induction k as [|k IH]; intros [|x s] H; cbn [JS.prefix]; auto.
  rewrite includes_single_cons in *. apply orb_false_elim in H as [H1 H2].
  now rewrite H1, IH.
Qed.

Lemma OneLine_decimal (n : nat) : Toml.OneLine (Toml.decimal n).
Proof.
  unfold Toml.decimal, Toml.OneLine. change Toml.nl with (single "010").
  induction (Nat.to_uint n) as [|d IH|d IH|d IH|d IH|d IH|d IH|d IH|d IH|d IH|d IH];
    cbn [NilEmpty.string_of_uint]; [reflexivity|..];
    now rewrite includes_single_cons, IH.
Qed.

Lemma split_OneLine (sep s : string) (drop : nat) :
  Toml.OneLine s ->
  Index.split sep s drop <> [] /\ Forall Toml.OneLine (Index.split sep s drop).
Proof.
  unfold Toml.OneLine. change Toml.nl with (single "010").
  revert drop; induction s as [|x s IH]; intros drop H.
  - split; [discriminate | now repeat constructor].
  - rewrite includes_single_cons in H. apply orb_false_elim in H as [Hx Hs].
    cbn [Index.split]. destruct drop as [|d]; [|exact (IH d Hs)].
    destruct (JS.startsWith (String x s) sep).
    + split; [discriminate|]. constructor; [reflexivity | exact (proj2 (IH _ Hs))].
    + destruct (IH 0 Hs) as [Hne Hall].
      destruct (Index.split sep s 0) as [|l ls]; [congruence|].
      split; [discriminate|]. inversion Hall; subst.
      constructor; [|assumption].
      now rewrite includes_single_cons, Hx.
Qed.

Lemma parts_OneLine (chain : string) :
  Toml.OneLine chain ->
  Index.parts chain <> [] /\ Forall Toml.OneLine (Index.parts chain).
Proof.
  intros H. unfold Index.parts.
  destruct (JS.includes chain " | "); now apply split_OneLine.
Qed.

Lemma splitLines_line (s t : string) :
  Toml.OneLine s -> JS.splitLines (Toml.line s +:+ t) = s :: JS.splitLines t.
Proof.
  unfold Toml.OneLine, Toml.line. change Toml.nl with (single "010").
  induction s as [|x s IH]; intros H.
  - reflexivity.
  - rewrite includes_single_cons in H. apply orb_false_elim in H as [Hx Hs].
    rewrite !append_cons. cbn [JS.splitLines].
    rewrite Ascii.eqb_sym, Hx, (IH Hs). reflexivity.
Qed.

Lemma Prepends_empty (P : string -> Prop) : Toml.Prepends P EmptyString.
Proof. intros rest H. exact H. Qed.

Lemma Prepends_app (P : string -> Prop) (a b : string) :
  Toml.Prepends P a -> Toml.Prepends P b -> Toml.Prepends P (a +:+ b).
Proof. intros Ha Hb rest H. rewrite append_assoc. apply Ha, Hb, H. Qed.

Lemma Prepends_line (P : string -> Prop) (s : string) :
  P s -> Toml.OneLine s -> Toml.Prepends P (Toml.line s).
Proof. intros Hp Hs rest H. rewrite (splitLines_line s rest Hs). now constructor. Qed.

Lemma Prepends_comment (P : string -> Prop) (parts : list string) :
  (forall p, P ("#   " +:+ p)) ->
  parts <> [] ->
  Forall Toml.OneLine parts ->
  Toml.Prepends P (Toml.line ("#   " +:+ JS.join (Toml.nl +:+ "#   ") parts)).
Proof.
  intros HP Hne Hall. induction Hall as [|p ps Hp Hps IH]; [congruence|].
  destruct ps as [|q ps].
  - cbn [JS.join]. apply Prepends_line; [apply HP|].
    apply OneLine_append. split; [reflexivity | exact Hp].
  - change (JS.join (Toml.nl +:+ "#   ") (p :: q :: ps))
      with (p +:+ (Toml.nl +:+ "#   ") +:+ JS.join (Toml.nl +:+ "#   ") (q :: ps)).
    assert (Heq : Toml.line ("#   " +:+ p +:+ (Toml.nl +:+ "#   ") +:+
                              JS.join (Toml.nl +:+ "#   ") (q :: ps))
                  = Toml.line ("#   " +:+ p) +:+
                    Toml.line ("#   " +:+ JS.join (Toml.nl +:+ "#   ") (q :: ps))).
    { unfold Toml.line. now rewrite !append_assoc. }
    rewrite Heq. apply Prepends_app.
    + apply Prepends_line; [apply HP|].
      apply OneLine_append. split; [reflexivity | exact Hp].
    + apply IH. discriminate.
Qed.

Lemma TomlLine_comment (s : string) : Toml.TomlLine ("#" +:+ s).
Proof. right; left. reflexivity. Qed.

Lemma TomlLine_key (key value : string) :
  In key ["ecosystem"; "name"; "version"; "reason"] ->
  Toml.OneLine value ->
  Toml.TomlLine (key +:+ " = " +:+ dquote +:+ value +:+ dquote).
Proof. intros Hk Hv. do 4 right. now exists key, value. Qed.

Ltac prepend_each :=
  lazymatch goal with
  | |- Toml.Prepends _ (Toml.line _ +:+ _) => apply Prepends_app; [|prepend_each]
  | |- Toml.Prepends _ (Toml.alternativeReasons _ +:+ _) =>
      apply Prepends_app; [|prepend_each]
  | _ => idtac
  end.

Lemma Prepends_packageOverride (vuln : Toml.Vulnerability) :
  Toml.OneLineFields vuln -> Toml.Prepends Toml.TomlLine (Toml.packageOverride vuln).
Proof.
  intros (Hname & Hversion & Hreason & Hchain & Hids & Hsev).
  destruct (parts_OneLine _ Hchain) as [Hne Hparts].
  assert (Hquoted : forall v, Toml.OneLine v -> Toml.OneLine (dquote +:+ v +:+ dquote)).
  { intros v Hv. rewrite !OneLine_append. now repeat split. }
  unfold Toml.packageOverride. prepend_each.
  - apply Prepends_line; [now do 2 right; left | reflexivity].
  - apply Prepends_line; [exact (TomlLine_comment " Used by:") | reflexivity].
  - apply Prepends_comment; [|exact Hne | exact Hparts].
    intros p. exact (TomlLine_comment ("   " +:+ p)).
  - apply Prepends_line; [exact (TomlLine_comment (" Vulnerability IDs: " +:+ _))|].
    apply OneLine_append. split; [reflexivity|]. now apply OneLine_join.
  - apply Prepends_line; [exact (TomlLine_comment (" Severity: " +:+ _))|].
    apply OneLine_append. split; [reflexivity|].
    destruct (0 <? length _); [now apply OneLine_join | reflexivity].
  - unfold Toml.alternativeReasons.
    destruct (Toml.show_alternatives vuln); [|apply Prepends_empty].
    prepend_each; (apply Prepends_line; [right; left; reflexivity | reflexivity]).
  - apply Prepends_line.
    + apply (TomlLine_key "ecosystem" "npm"); [cbn; auto | reflexivity].
    + reflexivity.
  - apply Prepends_line.
    + apply (TomlLine_key "name"); [cbn; auto | exact Hname].
    + apply OneLine_append. split; [reflexivity | now apply Hquoted].
  - apply Prepends_line.
    + apply (TomlLine_key "version"); [cbn; auto | exact Hversion].
    + apply OneLine_append. split; [reflexivity | now apply Hquoted].
  - apply Prepends_line; [now do 3 right; left | reflexivity].
  - apply Prepends_line.
    + apply (TomlLine_key "reason"); [cbn; auto | exact Hreason].
    + apply OneLine_append. split; [reflexivity | now apply Hquoted].
  - apply (Prepends_line _ EmptyString); [now left | reflexivity].
Qed.

Lemma Prepends_fold (P : string -> Prop) (f : Toml.Vulnerability -> string)
  (l : list Toml.Vulnerability) (init : string) :
  Toml.Prepends P init ->
  Forall (fun vuln => Toml.Prepends P (f vuln)) l ->
  Toml.Prepends P (fold_left (fun config vuln => config +:+ f vuln) l init).
Proof.
  intros Hinit Hall. revert init Hinit.
  induction Hall as [|v l Hv _ IH]; intros init Hinit; [exact Hinit|].
  cbn [fold_left]. apply IH. now apply Prepends_app.
Qed.

(** X14. When no text written into the file holds a line feed (the
    date, the name of the package manager, and the name, version, reason,
    chain, identifiers and severities of every vulnerability), every line
    of the generated configuration is blank, a comment, the header of a
    table, or a key with its value between double quotes. *)
Theorem generated_file_is_made_of_toml_lines
  (now : string) (sortedVulns : list Toml.Vulnerability -> list Toml.Vulnerability)
  (vulnerabilities : list Toml.Vulnerability) (managerName : string) :
  (forall vuln, In vuln (sortedVulns vulnerabilities) -> In vuln vulnerabilities) ->
  Toml.OneLine now ->
  Toml.OneLine managerName ->
  Forall Toml.OneLineFields vulnerabilities ->
  Forall Toml.TomlLine
    (JS.splitLines
       (fst (Toml.generateTomlConfig now sortedVulns vulnerabilities managerName))).
Proof.
  intros Hsorted Hnow Hname Hall.
  rewrite <- (append_empty_r (fst _)). cbn [fst Toml.generateTomlConfig].
  apply Prepends_fold.
  - unfold Toml.header. prepend_each.
    + apply Prepends_line; [right; left; reflexivity | reflexivity].
    + apply Prepends_line; [exact (TomlLine_comment (" Date: " +:+ _))|].
      apply OneLine_append. split; [reflexivity|].
      apply OneLine_prefix.
      exact (includes_single_replace "010" now "T" " " Hnow eq_refl).
    + apply Prepends_line; [exact (TomlLine_comment (" Package Manager: " +:+ _))|].
      apply OneLine_append. now split.
    + apply Prepends_line;
        [exact (TomlLine_comment (" Total vulnerabilities ignored: " +:+ _))|].
      apply OneLine_append. split; [reflexivity | apply OneLine_decimal].
    + apply (Prepends_line _ EmptyString); [now left | reflexivity].
  - apply List.Forall_forall. intros vuln Hin. apply Prepends_packageOverride.
    rewrite List.Forall_forall in Hall. exact (Hall _ (Hsorted _ Hin)).
  - constructor; [now left | constructor].
Qed.

Lemma generated_file_is_made_of_toml_lines_witness :
  let now := "2026-11-02T15:08:00.000Z" in
  let vulnerabilities :=
    [Toml.mkVulnerability "lodash" "4.17.20" ["GHSA-35jh-r3h4-6jhm"] ["HIGH"]
       "backend#lodash | frontend#lodash" "Requires manual review" true] in
  (forall vuln, In vuln vulnerabilities -> In vuln vulnerabilities)
  /\ Toml.OneLine now
  /\ Toml.OneLine "yarn"
  /\ Forall Toml.OneLineFields vulnerabilities
  /\ Forall Toml.TomlLine
       (JS.splitLines
          (fst (Toml.generateTomlConfig now (fun l => l) vulnerabilities "yarn"))).
Proof.
  cbn zeta.
  assert (H1 : forall vuln : Toml.Vulnerability,
             In vuln [Toml.mkVulnerability "lodash" "4.17.20" ["GHSA-35jh-r3h4-6jhm"]
                        ["HIGH"] "backend#lodash | frontend#lodash"
                        "Requires manual review" true] ->
             In vuln [Toml.mkVulnerability "lodash" "4.17.20" ["GHSA-35jh-r3h4-6jhm"]
                        ["HIGH"] "backend#lodash | frontend#lodash"
                        "Requires manual review" true])
    by (intros vuln H; exact H).
  assert (H2 : Toml.OneLine "2026-11-02T15:08:00.000Z") by reflexivity.
  assert (H3 : Toml.OneLine "yarn") by reflexivity.
  assert (H4 : Forall Toml.OneLineFields
                 [Toml.mkVulnerability "lodash" "4.17.20" ["GHSA-35jh-r3h4-6jhm"]
                    ["HIGH"] "backend#lodash | frontend#lodash"
                    "Requires manual review" true]).
  { repeat constructor. }
  split; [exact H1|]. split; [exact H2|]. split; [exact H3|]. split; [exact H4|].
  exact (generated_file_is_made_of_toml_lines _ (fun l => l) _ _ H1 H2 H3 H4).
Defined.

(** X9. [getVersion] gives a version exactly for a run that ended with
    exit code 0 and left text on its standard output: the version is
    that text trimmed, so it has no white space at either end and
    trimming it again changes nothing.  [update] reports success exactly
    for a run that ended with exit code 0. *)
Theorem version_comes_trimmed_from_a_successful_run (run : SpawnResult) :
  (forall v,
     getVersion run = Some v <->
     exists text, run = SpawnReturns (Some 0) (Some text) /\ v = JS.trim text)
  /\ (forall v, getVersion run = Some v -> Trimmed v /\ JS.trim v = v)
  /\ (update run = true <-> exists stdout, run = SpawnReturns (Some 0) stdout).
Proof.
  assert (Hiff : forall v,
            getVersion run = Some v <->
            exists text, run = SpawnReturns (Some 0) (Some text) /\ v = JS.trim text).
  { intros v. split.
    - destruct run as [|status [text|]]; cbn [getVersion]; try discriminate.
      + destruct (bool_decide (status = Some 0)) eqn:E; [|discriminate].
        apply bool_decide_eq_true in E as ->. intros [= <-]. now exists text.
      + now destruct (bool_decide (status = Some 0)).
    - intros (text & -> & ->). reflexivity. }
  split; [exact Hiff|]. split.
  - intros v (text & _ & ->)%Hiff.
    split; [apply trim_Trimmed | apply trim_of_Trimmed, trim_Trimmed].
  - destruct run as [|status stdout]; cbn [update].
    + split; [discriminate | now intros [? ?]].
    + rewrite bool_decide_eq_true. split.
      * intros ->. now exists stdout.
      * now intros (? & [= -> _]).
Qed.

Lemma unableToDetermine_Trimmed : Trimmed unableToDetermine.
Proof. apply Trimmed_strip. split; vm_compute; reflexivity. Qed.

(** X10. What the pnpm implementation returns has no white space at
    either end: it is the sentinel, or the captured output trimmed,
    whatever the exit code.  Unlike the answer of the yarn
    implementation it can be empty: it is for an output of one line
    feed. *)
Theorem pnpm_chain_is_the_trimmed_output
  (spawnSync : string -> SpawnResult) (packageName version : string) :
  let result := Pnpm.getDependencyChain spawnSync packageName version in
  Trimmed result
  /\ JS.trim result = result
  /\ (result = unableToDetermine
      \/ exists status stdout,
           spawnSync (packageName +:+ "@" +:+ version)
           = SpawnReturns status (Some stdout)
           /\ stdout <> EmptyString /\ result = JS.trim stdout)
  /\ Pnpm.getDependencyChain
       (fun _ => SpawnReturns (Some 0) (Some (String "010" EmptyString)))
       packageName version
     = EmptyString.
Proof.
  cbn zeta.
  assert (Ht : Trimmed (Pnpm.getDependencyChain spawnSync packageName version)).
  { unfold Pnpm.getDependencyChain.
    destruct (spawnSync _) as [|status [stdout|]];
      try apply unableToDetermine_Trimmed.
    destruct (JS.truthy stdout);
      [apply trim_Trimmed | apply unableToDetermine_Trimmed]. }
  split; [exact Ht|]. split; [exact (trim_of_Trimmed _ Ht)|].
  split; [|reflexivity].
  unfold Pnpm.getDependencyChain.
  destruct (spawnSync _) as [|status [stdout|]]; try (now left).
  destruct (JS.truthy stdout) eqn:E; [|now left].
  right. exists status, stdout. repeat split. now destruct stdout.
Qed.

Section DetectorFacts.

Variable npmLockfile : string.
Variable readFileSync : string -> option string.
Variable existsSync : string -> bool.
Variable JSON_parse : string -> option JSON.value.

Lemma prefixes_exclude (pm : string) :
  (JS.startsWith pm "yarn" = true -> JS.startsWith pm "npm" = false
                                    /\ JS.startsWith pm "pnpm" = false)
  /\ (JS.startsWith pm "npm" = true -> JS.startsWith pm "pnpm" = false).
Proof.
  destruct pm as [|c pm]; [split; discriminate|].
  cbn [JS.startsWith].
  destruct (Ascii.eqb_spec "y" c) as [<-|]; [split; [now split | discriminate]|].
  destruct (Ascii.eqb_spec "n" c) as [<-|]; [split; [discriminate | reflexivity]|].
  split; discriminate.
Qed.

(** X15. When [package.json] declares a package manager as a string, the
    manager whose name the string starts with is chosen whatever
    lockfiles exist (the three names exclude one another, so the order
    of the tests does not count); a string that starts with none of
    them, like a file that cannot be read or declares nothing, leaves
    the choice to the lockfiles; and nothing is detected exactly when
    the declaration decides nothing and none of the three lockfiles
    exists. *)
Theorem declared_manager_wins_over_lockfiles :
  let detect :=
    Detector.detectPackageManager npmLockfile readFileSync existsSync JSON_parse in
  let declared := Detector.declaredManager readFileSync JSON_parse in
  let lockfiles := Detector.fromLockfiles npmLockfile existsSync in
  (forall pm,
     declared = Some pm ->
     (JS.startsWith pm "yarn" = true -> detect = Some Detector.Yarn)
     /\ (JS.startsWith pm "npm" = true -> detect = Some Detector.Npm)
     /\ (JS.startsWith pm "pnpm" = true -> detect = Some Detector.Pnpm)
     /\ (JS.startsWith pm "yarn" = false -> JS.startsWith pm "npm" = false ->
         JS.startsWith pm "pnpm" = false -> detect = lockfiles))
  /\ (declared = None -> detect = lockfiles)
  /\ (detect = None <->
      Detector.fromDeclaration readFileSync JSON_parse = None
      /\ existsSync "yarn.lock" = false
      /\ existsSync npmLockfile = false
      /\ existsSync "pnpm-lock.yaml" = false).
Proof.
  cbn zeta. unfold Detector.detectPackageManager, Detector.fromDeclaration.
  split; [|split].
  - intros pm ->. destruct (prefixes_exclude pm) as [Hy Hn].
    repeat split.
    + intros H. rewrite H. now destruct pm.
    + intros H. rewrite H.
      destruct (JS.startsWith pm "yarn") eqn:E;
        [destruct (Hy eq_refl); congruence | now destruct pm].
    + intros H. rewrite H.
      destruct (JS.startsWith pm "yarn") eqn:E;
        [destruct (Hy eq_refl); congruence|].
      destruct (JS.startsWith pm "npm") eqn:E';
        [rewrite (Hn eq_refl) in H; discriminate | now destruct pm].
    + intros -> -> ->. now destruct (JS.truthy pm).
  - now intros ->.
  - unfold Detector.fromLockfiles. cbn [Detector.lockfile].
    change Pnpm.lockfile with "pnpm-lock.yaml".
    destruct (Detector.fromDeclaration readFileSync JSON_parse) eqn:E;
      unfold Detector.fromDeclaration in E; rewrite E.
    + split; [discriminate | now intros [? _]].
    + destruct (existsSync "yarn.lock"), (existsSync npmLockfile),
        (existsSync "pnpm-lock.yaml"); split; try discriminate; try tauto;
        intros (_ & H1 & H2 & H3); discriminate.
Qed.

End DetectorFacts.

(** ** The joined chains, split again *)

(** A part that does not hold the second character of the separator
    ends at the separator behind it. *)
Lemma split_part_second (c1 c2 : ascii) (sep' n t : string) :
  Ascii.eqb c2 c1 = false ->
  JS.includes n (single c2) = false ->
  Index.split (String c1 (String c2 sep')) (n +:+ String c1 (String c2 sep') +:+ t) 0
  = n :: Index.split (String c1 (String c2 sep')) t 0.
Proof.
  intros Hc. induction n as [|x n IH]; intros H.
  - rewrite append_nil_l, append_cons. cbn [Index.split].
    rewrite <- (append_cons c1 (String c2 sep') t), startsWith_append.
    cbn [String.length]. rewrite Nat.sub_1_r. cbn [Nat.pred].
    change (S (String.length sep')) with (String.length (String c2 sep')).
    now rewrite split_drop.
  - rewrite includes_single_cons in H. apply orb_false_elim in H as [Hx Hn].
    rewrite append_cons. cbn [Index.split].
    assert (Hno : JS.startsWith
                    (String x (n +:+ String c1 (String c2 sep') +:+ t))
                    (String c1 (String c2 sep')) = false).
    { cbn [JS.startsWith]. destruct (Ascii.eqb c1 x); [|reflexivity].
      cbn [andb]. destruct n as [|y n].
      - rewrite append_nil_l, append_cons. now rewrite Hc.
      - rewrite append_cons. rewrite includes_single_cons in Hn.
        apply orb_false_elim in Hn as [Hy _]. now rewrite Hy. }
    rewrite Hno. now rewrite (IH Hn).
Qed.

Lemma no_bar_no_separator (s : string) :
  JS.includes s (single "|") = false -> JS.includes s " | " = false.
Proof.
  intros H. destruct (JS.includes s " | ") eqn:E; [|reflexivity].
  apply (includes_char s " " " " "|") in E. congruence.
Qed.

Lemma split_join_bar (rest : list string) :
  forall c,
    Forall (fun chain => JS.includes chain (single "|") = false) (c :: rest) ->
    Index.split " | " (JS.join " | " (c :: rest)) 0 = c :: rest.
Proof.
  induction rest as [|d ds IH]; intros c Hall;
    inversion Hall as [|? ? Hbar Hrest]; subst.
  - cbn [JS.join]. apply split_absent, no_bar_no_separator, Hbar.
  - change (JS.join " | " (c :: d :: ds))
      with (c +:+ " | " +:+ JS.join " | " (d :: ds)).
    rewrite (split_part_second " " "|" " " c _ eq_refl Hbar).
    now rewrite (IH d Hrest).
Qed.

Lemma parts_join (chains : list string) :
  chains <> [] ->
  Forall (fun chain => JS.includes chain (single "|") = false /\
                       JS.includes chain Index.arrowOfIndex = false) chains ->
  Index.parts (JS.join " | " chains) = chains.
Proof.
  intros Hne Hall. unfold Index.parts.
  destruct chains as [|c [|c' rest]]; [congruence|..].
  - inversion Hall as [|? ? [Hbar Harrow] _]; subst. cbn [JS.join].
    rewrite (no_bar_no_separator _ Hbar). now apply split_absent.
  - change (JS.join " | " (c :: c' :: rest))
      with (c +:+ " | " +:+ JS.join " | " (c' :: rest)).
    rewrite includes_intro.
    change (c +:+ " | " +:+ JS.join " | " (c' :: rest))
      with (JS.join " | " (c :: c' :: rest)).
    apply split_join_bar. eapply List.Forall_impl; [|exact Hall].
    now intros chain [H _].
Qed.

Section SplitBack.

Variable JSON_parse : string -> option Record.

(** X16. The chains the parser joins are read back by [index.ts] as they
    were: when the returned chains, of which there is at least one, hold
    neither a bar nor the separator [index.ts] splits tree chains on,
    the text the parser returns is their join with a bar between spaces,
    and [index.ts] cuts it into the same list. *)
Theorem joined_chains_are_split_back (output version : string) (returned : list string) :
  returnedChains JSON_parse output version = Some returned ->
  returned <> [] ->
  Forall (fun chain => JS.includes chain (single "|") = false /\
                       JS.includes chain Index.arrowOfIndex = false) returned ->
  parseYarnWhyOutput JSON_parse output version = Some (JS.join " | " returned)
  /\ Index.parts (JS.join " | " returned) = returned.
Proof.
  intros Hret Hne Hall. split; [|exact (parts_join returned Hne Hall)].
  unfold returnedChains, retainedRecords in Hret. unfold parseYarnWhyOutput.
  destruct (extractDependencyChains _) as [chains|]; [|discriminate].
  injection Hret as <-. f_equal.
  destruct chains as [|c chains]; [now destruct Hne | reflexivity].
Qed.

End SplitBack.

Lemma joined_chains_are_split_back_witness :
  returnedChains parseLine capTranscript "1.0.0"
  = Some ["chain1"; "chain2"; "chain3"; "chain4"; "chain5"]
  /\ parseYarnWhyOutput parseLine capTranscript "1.0.0"
     = Some "chain1 | chain2 | chain3 | chain4 | chain5"
  /\ Index.parts "chain1 | chain2 | chain3 | chain4 | chain5"
     = ["chain1"; "chain2"; "chain3"; "chain4"; "chain5"].
Proof.
  assert (H : returnedChains parseLine capTranscript "1.0.0"
              = Some ["chain1"; "chain2"; "chain3"; "chain4"; "chain5"])
    by (vm_compute; reflexivity).
  split; [exact H|].
  apply (joined_chains_are_split_back parseLine capTranscript "1.0.0" _ H);
    [discriminate | repeat constructor].
Defined.

Section Surroundings.

Variable JSON_parse : string -> option Record.

(** X17. White space around the transcript is not read: the parser gives
    the same result on a transcript and on the transcript trimmed. *)
Theorem white_space_around_the_transcript_is_ignored (output version : string) :
  parseYarnWhyOutput JSON_parse (JS.trim output) version
  = parseYarnWhyOutput JSON_parse output version
  /\ Trimmed (JS.trim output).
Proof.
  split; [|apply trim_Trimmed].
  unfold parseYarnWhyOutput. now rewrite (trim_of_Trimmed _ (trim_Trimmed output)).
Qed.

End Surroundings.

(** ** Development dependencies in a chain *)

Section DevDependencyFacts.

Variable toLowerCase : string -> string.

(** X18. For a chain of well-formed entries joined with a bar between
    spaces, the flag is set exactly when the name of some entry (scope
    kept, version left out) is a development dependency, or the chain in
    lower case mentions development dependencies.  An entry is looked up
    as a whole: a path such as backend#argon2 is one name. *)
Theorem dev_dependency_is_an_entry_of_the_chain
  (entries : list Entry) (devDependencies : gset string) :
  Forall WellFormed entries ->
  let depChain := JS.join " | " (map render entries) in
  Index.isDevDependency toLowerCase depChain devDependencies = true <->
  (exists e, In e entries /\ packageOf e ∈ devDependencies)
  \/ JS.includes (toLowerCase depChain) "devdependencies" = true
  \/ JS.includes (toLowerCase depChain) "dev-dep" = true.
Proof.
  intros Hwf. cbn zeta. unfold Index.isDevDependency.
  assert (Hnames : Index.extractPackageNamesFromChain
                     (JS.join " | " (map render entries))
                   = map packageOf entries).
  { unfold Index.extractPackageNamesFromChain.
    rewrite (parts_of_rendered_entries entries Hwf).
    destruct entries as [|e rest]; [reflexivity | exact (omap_render _ Hwf)]. }
  rewrite Hnames.
  rewrite !orb_true_iff, existsb_exists. split.
  - intros [(pkg & Hin & Hdev)|H]; [left | now right].
    apply in_map_iff in Hin as (e & <- & He).
    apply bool_decide_eq_true in Hdev. now exists e.
  - intros [(e & He & Hdev)|H]; [left | now right].
    exists (packageOf e). split; [now apply in_map|].
    now apply bool_decide_eq_true.
Qed.

End DevDependencyFacts.

Lemma dev_dependency_is_an_entry_of_the_chain_witness :
  Forall WellFormed [mkEntry false "backend#argon2" None; mkEntry false "jest" (Some "29.7.0")]
  /\ Index.isDevDependency (fun s => s) "backend#argon2 | jest@29.7.0" {["jest"]} = true.
Proof.
  assert (H : Forall WellFormed
                [mkEntry false "backend#argon2" None; mkEntry false "jest" (Some "29.7.0")]).
  { repeat constructor; try discriminate; reflexivity. }
  split; [exact H|].
  apply (dev_dependency_is_an_entry_of_the_chain (fun s => s) _ {["jest"]} H).
  left. exists (mkEntry false "jest" (Some "29.7.0")).
  split; [right; now left | now apply elem_of_singleton].
Defined.

(** ** The chains in the comment of a table *)

Lemma splitLines_comment (parts : list string) (rest : string) :
  parts <> [] ->
  Forall Toml.OneLine parts ->
  JS.splitLines
    (Toml.line ("#   " +:+ JS.join (Toml.nl +:+ "#   ") parts) +:+ rest)
  = map (fun p => "#   " +:+ p) parts ++ JS.splitLines rest.
Proof.
  intros Hne Hall. induction Hall as [|p ps Hp Hps IH]; [congruence|].
  assert (Hline : Toml.OneLine ("#   " +:+ p))
    by (apply OneLine_append; split; [reflexivity | exact Hp]).
  destruct ps as [|q ps].
  - cbn [JS.join map app]. now rewrite splitLines_line.
  - change (JS.join (Toml.nl +:+ "#   ") (p :: q :: ps))
      with (p +:+ (Toml.nl +:+ "#   ") +:+ JS.join (Toml.nl +:+ "#   ") (q :: ps)).
    assert (Heq : Toml.line ("#   " +:+ p +:+ (Toml.nl +:+ "#   ") +:+
                              JS.join (Toml.nl +:+ "#   ") (q :: ps)) +:+ rest
                  = Toml.line ("#   " +:+ p) +:+
                    (Toml.line ("#   " +:+ JS.join (Toml.nl +:+ "#   ") (q :: ps))
                     +:+ rest)).
    { unfold Toml.line. now rewrite !append_assoc. }
    rewrite Heq, (splitLines_line _ _ Hline), IH by discriminate. reflexivity.
Qed.

(** X19. Each chain the parser returned has a comment line of its own in
    the table written for a vulnerability: when the dependency chain is
    the join, with a bar between spaces, of chains that hold no bar, no
    line feed and not the separator [index.ts] splits on, the table
    starts with its header, the line Used by, then one line per chain,
    in order, then the line of the identifiers. *)
Theorem used_by_lists_every_chain (vuln : Toml.Vulnerability) (chains : list string) :
  chains <> [] ->
  Forall (fun chain => JS.includes chain (single "|") = false /\
                       JS.includes chain Index.arrowOfIndex = false /\
                       Toml.OneLine chain) chains ->
  Toml.dependency_chain vuln = JS.join " | " chains ->
  exists rest,
    JS.splitLines (Toml.packageOverride vuln)
    = "[[PackageOverrides]]" :: "# Used by:"
      :: map (fun chain => "#   " +:+ chain) chains
      ++ JS.splitLines
           (Toml.line ("# Vulnerability IDs: " +:+
                       JS.join ", " (Toml.vulnerability_ids vuln)) +:+ rest).
Proof.
  intros Hne Hall Hchain.
  assert (Hparts : Index.parts (Toml.dependency_chain vuln) = chains).
  { rewrite Hchain. apply parts_join; [exact Hne|].
    eapply List.Forall_impl; [|exact Hall]. now intros c (H1 & H2 & _). }
  assert (Hlines : Forall Toml.OneLine chains)
    by (eapply List.Forall_impl; [|exact Hall]; now intros c (_ & _ & H)).
  unfold Toml.packageOverride, Toml.depComment. rewrite Hparts. eexists.
  rewrite (splitLines_line "[[PackageOverrides]]") by reflexivity.
  rewrite (splitLines_line "# Used by:") by reflexivity.
  rewrite (splitLines_comment chains _ Hne Hlines). reflexivity.
Qed.

Lemma used_by_lists_every_chain_witness :
  let vuln :=
    Toml.mkVulnerability "lodash" "4.17.20" ["GHSA-35jh-r3h4-6jhm"] ["HIGH"]
      "backend#lodash | frontend#lodash" "Requires manual review" false in
  ["backend#lodash"; "frontend#lodash"] <> []
  /\ Toml.dependency_chain vuln = JS.join " | " ["backend#lodash"; "frontend#lodash"]
  /\ exists rest,
       JS.splitLines (Toml.packageOverride vuln)
       = "[[PackageOverrides]]" :: "# Used by:"
         :: ["#   backend#lodash"; "#   frontend#lodash"]
         ++ JS.splitLines
              (Toml.line ("# Vulnerability IDs: " +:+
                          JS.join ", " (Toml.vulnerability_ids vuln)) +:+ rest).
Proof.
  cbn zeta.
  assert (H1 : ["backend#lodash"; "frontend#lodash"] <> []) by discriminate.
  split; [exact H1|]. split; [reflexivity|].
  apply (used_by_lists_every_chain _ ["backend#lodash"; "frontend#lodash"] H1);
    [repeat constructor | reflexivity].
Defined.
